(** * The client-side processing pipeline of the tool suite

    A shallow embedding of [utils/fileProcessor.ts]: the file validator, the
    magic-number check, the progress tracker, the sliding-window rate
    limiter, the error handler and the [FileProcessor] orchestrator with its
    five tool routines.

    Conventions of the embedding.
    - A JavaScript string is a [string]: a sequence of 8-bit code units.
    - A JavaScript number holding a byte count or a timestamp is a [Z]; a
      progress value is a [JS.number]: a rational, an infinity or [NaN]
      ([Math.min]/[Math.max] are exact on the rationals and propagate
      [NaN]).
    - Reading a plain object by a computed key sees the object's own entries
      and, behind them, the members of [Object.prototype]
      ([JS.objectPrototypeKeys], assumed unextended): [JS.read].  The tool
      registry [configs] and the usage statistics are read this way.
    - The signature table of the content check and the MIME table of the
      tool panel are read through their own keys; a declared type or a
      format that names a member of [Object.prototype] is outside these two
      definitions (for such a declared type the real content check throws
      inside the reader's [onload] and its promise never settles), and the
      theorems about them say so where it matters.
    - [async] code runs to completion in program order; a rejected promise
      or a [throw] is the left summand of the result.
    - Vendor libraries (pdf-lib, pdf.js, canvas, FileReader, [Math.random],
      [formatBytes]'s floating point) are parameters. *)

From Stdlib Require Import ZArith QArith Qminmax Qround Lqa Ascii.
From stdpp Require Import base gmap strings list pretty.

Open Scope Z_scope.

(** ** String primitives of the host language *)

Module JS.

(** [s.includes(needle)] *)
Fixpoint includes (s needle : string) : bool :=
  if String.prefix needle s then true
  else match s with
       | EmptyString => false
       | String _ s' => includes s' needle
       end.

(** [arr.join(sep)] *)
Definition join (sep : string) (arr : list string) : string :=
  String.concat sep arr.

(** [s.substr(start, len)] for non-negative arguments *)
Definition substr (s : string) (start len : nat) : string :=
  String.substring start len s.

(** Canonicalisation of a code unit under the [i] flag (no [u] flag): the
    upper-case form, which for the 8-bit range only moves [a-z]. *)
Definition canonicalize (c : ascii) : ascii :=
  let n := N_of_ascii c in
  if ((97 <=? n) && (n <=? 122))%N then ascii_of_N (n - 32) else c.

Definition char_match_i (p c : ascii) : bool :=
  Ascii.eqb (canonicalize p) (canonicalize c).

(** The literal [lit] matches the whole of [s], ignoring case. *)
Fixpoint literal_to_end_i (lit s : string) : bool :=
  match lit, s with
  | EmptyString, EmptyString => true
  | String p lit', String c s' => char_match_i p c && literal_to_end_i lit' s'
  | _, _ => false
  end.

(** [/lit$/i.test(s)] for a literal [lit]: the matcher tries every start
    position from the left; [$] only holds at the end of the input. *)
Fixpoint test_literal_at_end_i (lit s : string) : bool :=
  literal_to_end_i lit s ||
  match s with
  | EmptyString => false
  | String _ s' => test_literal_at_end_i lit s'
  end.

(** [s.replace(pat, by)] with a string pattern: first occurrence only. *)
Fixpoint replace_first (s pat by_ : string) : string :=
  if String.prefix pat s
  then by_ +:+ String.substring (String.length pat) (String.length s) s
  else match s with
       | EmptyString => EmptyString
       | String c s' => String c (replace_first s' pat by_)
       end.

Fixpoint has_dot (s : string) : bool :=
  match s with
  | EmptyString => false
  | String c s' => Ascii.eqb c "." || has_dot s'
  end.

(** [s.replace(/\.[^.]+$/, by)]: the match starts at a dot that is
    followed by at least one code unit and by no further dot. *)
Fixpoint replace_extension (s by_ : string) : string :=
  match s with
  | EmptyString => EmptyString
  | String c s' =>
      if Ascii.eqb c "." && negb (String.eqb s' "") && negb (has_dot s')
      then by_
      else String c (replace_extension s' by_)
  end.

(** A number: a finite value (exact, as a rational), an infinity or NaN. *)
Inductive number :=
  | finite (q : Q)
  | pos_infinity
  | neg_infinity
  | NaN.

(** [Math.max(a, b)] and [Math.min(a, b)]: NaN if an argument is NaN. *)
Definition Math_max (a b : number) : number :=
  match a, b with
  | NaN, _ | _, NaN => NaN
  | pos_infinity, _ | _, pos_infinity => pos_infinity
  | neg_infinity, x | x, neg_infinity => x
  | finite p, finite q => finite (Qmax p q)
  end.

Definition Math_min (a b : number) : number :=
  match a, b with
  | NaN, _ | _, NaN => NaN
  | neg_infinity, _ | _, neg_infinity => neg_infinity
  | pos_infinity, x | x, pos_infinity => x
  | finite p, finite q => finite (Qmin p q)
  end.

(** The string-keyed members every plain object inherits from
    [Object.prototype]: eleven functions and the [__proto__] accessor, whose
    value is [Object.prototype] itself.  All of them are truthy. *)
Definition objectPrototypeKeys : list string :=
  [ "constructor"; "__defineGetter__"; "__defineSetter__"; "hasOwnProperty";
    "__lookupGetter__"; "__lookupSetter__"; "isPrototypeOf";
    "propertyIsEnumerable"; "toString"; "valueOf"; "__proto__";
    "toLocaleString" ].

(** What [object[key]] evaluates to on a plain object. *)
Inductive property (A : Type) :=
  | own (a : A)
  | inherited
  | undefined.
Arguments own {A} a.
Arguments inherited {A}.
Arguments undefined {A}.

Definition read {A} (object : gmap string A) (key : string) : property A :=
  match object !! key with
  | Some a => own a
  | None => if bool_decide (key ∈ objectPrototypeKeys) then inherited else undefined
  end.

End JS.

(** ** Data model *)

Record ValidationResult := {
  isValid : bool;
  errors : list string
}.

(** A browser [File]: the declared metadata, and what a [FileReader] delivers
    for [file.slice(0, 16)] ([None] when the reader fires [onerror]). *)
Record File := {
  file_name : string;
  file_type : string;
  file_size : Z;
  file_head : option (list Z)
}.

Record ProcessedFile := {
  buffer : list Z;
  fileName : string;
  mimeType : string;
  size : Z
}.

Record ProcessingOptions := {
  quality : option string;
  compression : option bool;
  format : option string;
  pages : option (list Z);
  additionalFiles : option (list File)
}.

Definition no_options : ProcessingOptions :=
  {| quality := None; compression := None; format := None; pages := None;
     additionalFiles := None |}.

(** ** SecurityValidator *)

Module SecurityValidator.

Definition signatures : list (string * list Z) :=
  [ ("application/pdf", [0x25; 0x50; 0x44; 0x46]);
    ("image/jpeg", [0xFF; 0xD8; 0xFF]);
    ("image/png", [0x89; 0x50; 0x4E; 0x47]);
    ("application/zip", [0x50; 0x4B; 0x03; 0x04]);
    ("application/vnd.openxmlformats-officedocument.wordprocessingml.document",
      [0x50; 0x4B; 0x03; 0x04]);
    ("application/vnd.openxmlformats-officedocument.spreadsheetml.sheet",
      [0x50; 0x4B; 0x03; 0x04]) ].

(** The signature registered for a MIME type.  This is [signatures[mimeType]]
    for every type that is not the name of a member inherited from
    [Object.prototype]; for those twelve names the value read is truthy and
    no array, [signature.every] throws, and since that happens inside the
    reader's [onload] the promise of [validateFileContent] never settles.
    Files with such a declared type are outside [checkMagicNumbers] and
    [validateFileContent] below. *)
Definition lookup_signature (mime : string) : option (list Z) :=
  (list_to_map signatures : gmap string (list Z)) !! mime.

(** [signature.every((byte, index) => bytes[index] === byte)] *)
Fixpoint every_byte (signature : list Z) (index : nat) (bytes : list Z) : bool :=
  match signature with
  | [] => true
  | byte :: rest =>
      match bytes !! index with
      | Some b => (b =? byte) && every_byte rest (S index) bytes
      | None => false
      end
  end.

Definition checkMagicNumbers (bytes : list Z) (mime : string) : bool :=
  match lookup_signature mime with
  | None => true
  | Some signature => every_byte signature 0 bytes
  end.

Definition validateFileContent (file : File) : bool :=
  match file_head file with
  | Some buf => checkMagicNumbers (take 16 buf) (file_type file)
  | None => false
  end.

End SecurityValidator.

(** ** validateFile *)

Section Validation.

(** [formatBytes] goes through [Math.log] and [toFixed]; only its result
    as a string matters here. *)
Variable formatBytes : Z → string.

Definition dangerousPatterns : list string := [".exe"; ".bat"; ".cmd"; ".scr"].

Definition dangerous_name (name : string) : bool :=
  existsb (λ pattern, JS.test_literal_at_end_i pattern name) dangerousPatterns.

Definition validateFile (file : File) (allowedTypes : list string) (maxSize : Z)
  : ValidationResult :=
  let errors0 : list string := [] in
  let errors1 :=
    if negb (bool_decide (file_type file ∈ allowedTypes))
    then errors0 ++ ["File type " +:+ file_type file +:+ " not supported"]
    else errors0 in
  let errors2 :=
    if maxSize <? file_size file
    then errors1 ++ ["File size exceeds " +:+ formatBytes maxSize +:+ " limit"]
    else errors1 in
  let errors3 :=
    if (255 <? Z.of_nat (String.length (file_name file)))
    then errors2 ++ ["File name too long"]
    else errors2 in
  let errors4 :=
    if dangerous_name (file_name file)
    then errors3 ++ ["File type not allowed for security reasons"]
    else errors3 in
  {| isValid := bool_decide (length errors4 = 0%nat); errors := errors4 |}.

End Validation.

(** ** ProgressTracker *)

Module ProgressTracker.
Section Tracker.

(** A callback is opaque; what is observable is which one fired with which
    value, recorded in [fired] in call order. *)
Context {Callback : Type}.

Record t := {
  progressCallbacks : gmap string Callback;
  fired : list (Callback * JS.number)
}.

(** [Math.min(100, Math.max(0, progress))] *)
Definition clamp (progress : JS.number) : JS.number :=
  JS.Math_min (JS.finite 100) (JS.Math_max (JS.finite 0) progress).

Definition trackProgress (jobId : string) (callback : Callback) (st : t) : t :=
  {| progressCallbacks := <[jobId := callback]> (progressCallbacks st);
     fired := fired st |}.

Definition updateProgress (jobId : string) (progress : JS.number) (st : t) : t :=
  match progressCallbacks st !! jobId with
  | Some callback =>
      {| progressCallbacks := progressCallbacks st;
         fired := fired st ++ [(callback, clamp progress)] |}
  | None => st
  end.

Definition removeProgress (jobId : string) (st : t) : t :=
  {| progressCallbacks := delete jobId (progressCallbacks st);
     fired := fired st |}.

Definition completeProgress (jobId : string) (st : t) : t :=
  removeProgress jobId (updateProgress jobId (JS.finite 100) st).

End Tracker.
Arguments t : clear implicits.
End ProgressTracker.

(** ** RateLimiter *)

Module RateLimiter.

Definition maxRequests : nat := 50.
Definition windowMs : Z := 15 * 60 * 1000.

(** [userRequests.filter(timestamp => now - timestamp < this.windowMs)] *)
Definition in_window (now : Z) (userRequests : list Z) : list Z :=
  filter (λ timestamp, now - timestamp < windowMs) userRequests.

(** [now] is the value of [Date.now()] at the call. *)
Definition isAllowed (now : Z) (identifier : string)
    (requests : gmap string (list Z)) : bool * gmap string (list Z) :=
  let userRequests := default [] (requests !! identifier) in
  let validRequests := in_window now userRequests in
  if bool_decide (maxRequests ≤ length validRequests)%nat
  then (false, requests)
  else (true, <[identifier := validRequests ++ [now]]> requests).

Definition getRemainingRequests (now : Z) (identifier : string)
    (requests : gmap string (list Z)) : Z :=
  let userRequests := default [] (requests !! identifier) in
  let validRequests := in_window now userRequests in
  Z.max 0 (Z.of_nat maxRequests - Z.of_nat (length validRequests)).

Definition getResetTime (identifier : string)
    (requests : gmap string (list Z)) : Z :=
  match default [] (requests !! identifier) with
  | [] => 0
  | first :: rest => foldr Z.min first rest + windowMs
  end.

(** A clock reading lies in the window that opens at [t0]. *)
Definition within (t0 now : Z) : Prop := t0 ≤ now < t0 + windowMs.

(** A run of calls for one identifier at the given clock readings. *)
Fixpoint run (identifier : string) (clock : list Z)
    (requests : gmap string (list Z)) : list bool * gmap string (list Z) :=
  match clock with
  | [] => ([], requests)
  | now :: later =>
      let '(answer, requests') := isAllowed now identifier requests in
      let '(answers, requests'') := run identifier later requests' in
      (answer :: answers, requests'')
  end.

End RateLimiter.

(** ** Errors and the ErrorHandler *)

(** A plain [Error] of the host or of a vendor library. *)
Record JsError := {
  err_name : string;
  err_message : string
}.

Record ProcessingError := {
  message : string;
  code : string;
  recoverable : bool;
  context : option string
}.

(** What a [catch] clause can receive. *)
Inductive Thrown :=
  | PlainError (e : JsError)
  | Processing (e : ProcessingError).

Definition error_name (error : Thrown) : string :=
  match error with
  | PlainError e => err_name e
  | Processing _ => "ProcessingError"
  end.

Definition error_message (error : Thrown) : string :=
  match error with
  | PlainError e => err_message e
  | Processing e => message e
  end.

Module ErrorHandler.

Definition getUserFriendlyMessage (error : Thrown) : string :=
  if String.eqb (error_name error) "QuotaExceededError"
  then "Storage quota exceeded. Please free up space and try again."
  else if String.eqb (error_name error) "NetworkError"
  then "Network connection lost. Please check your internet and retry."
  else if JS.includes (error_message error) "corrupted"
  then "The file appears to be corrupted. Please try with a different file."
  else if JS.includes (error_message error) "timeout"
  then "Processing timed out. Please try with a smaller file."
  else if JS.includes (error_message error) "memory"
  then "Insufficient memory to process this file. Please try with a smaller file."
  else "An unexpected error occurred. Please try again.".

Definition nonRecoverableErrors : list string :=
  ["QuotaExceededError"; "SecurityError"; "NotSupportedError"].

Definition isRecoverable (error : Thrown) : bool :=
  negb (bool_decide (error_name error ∈ nonRecoverableErrors)).

(** [random36] is the value of [Math.random().toString(36)] at the call. *)
Definition generateErrorId (random36 : string) : string :=
  JS.substr random36 2 9.

(** Logging and the optional [gtag] report leave the pipeline's state
    alone and are not modelled. *)
Definition handleProcessingError (random36 : string) (error : Thrown)
    (context : string) : ProcessingError :=
  let errorId := generateErrorId random36 in
  let message := getUserFriendlyMessage error in
  let recoverable := isRecoverable error in
  {| message := message; code := errorId; recoverable := recoverable;
     context := Some context |}.

End ErrorHandler.

(** ** Vendor libraries and browser services

    Each field is the call/return contract of one black box: a value, or the
    error it throws or rejects with. *)

Record Vendor := {
  (** pages of a pdf-lib document *)
  Page : Type;
  (** [file.arrayBuffer()] *)
  arrayBuffer : File → JsError + list Z;
  (** [pdfjsLib.getDocument(buf).promise], then per page
      [getPage(i)]/[getTextContent()] and the [str] of its items *)
  pdfjs_getDocument : list Z → JsError + list (JsError + list string);
  (** [createWordDocument] followed by [TextEncoder.encode] *)
  wordDocumentBytes : string → list Z;
  (** [PDFDocument.load(buf)] *)
  pdflib_load : list Z → JsError + list Page;
  (** [mergedPdf.save()] *)
  pdflib_save : list Page → JsError + list Z;
  (** [pdf.save({useObjectStreams: true, addDefaultPage: false, objectsPerTick: 50})] *)
  pdflib_save_compact : list Page → JsError + list Z;
  (** [canvas.getContext('2d')] is not null *)
  canvas_getContext : bool;
  (** [img.onload] with the image's width and height, or [img.onerror] *)
  image_load : File → option (Z * Z);
  (** [canvas.toBlob(cb, mime, quality)] after drawing the image at the
      given canvas size: the blob's bytes, or [null] *)
  canvas_toBlob : File → Z → Z → string → Q → option (list Z)
}.

(** ** FileProcessor *)

Record ToolConfig := {
  allowedTypes : list string;
  maxSize : Z
}.

(** What [configs[toolId] || fallback] evaluates to: a configuration (a
    registered one or the fallback literal), or a member inherited from
    [Object.prototype], which is truthy, so that the fallback is not taken,
    and has neither [allowedTypes] nor [maxSize]. *)
Inductive ToolConfigValue :=
  | config (c : ToolConfig)
  | inherited_member.

(** The tool routines, as a spy on the dispatcher sees them entered. *)
Inductive RoutineCall :=
  | processPDFToWord_called (file : File) (options : ProcessingOptions) (jobId : string)
  | mergePDFs_called (files : list File) (options : ProcessingOptions) (jobId : string)
  | compressPDF_called (file : File) (options : ProcessingOptions) (jobId : string)
  | resizeImage_called (file : File) (options : ProcessingOptions) (jobId : string)
  | compressImage_called (file : File) (options : ProcessingOptions) (jobId : string).

Module FileProcessor.
Section Processor.

Context {Callback : Type}.
Variable formatBytes : Z → string.
Variable vendor : Vendor.
(** [random36 n] is the value of the [n]-th [Math.random().toString(36)]. *)
Variable random36 : nat → string.

(** The processor's state: its private tracker, the number of random
    draws so far, and the routines entered so far. *)
Record World := {
  progressTracker : ProgressTracker.t Callback;
  draws : nat;
  routines : list RoutineCall
}.

(** Computations that read and write the world and may throw. *)
Definition M (A : Type) : Type := World → (Thrown + A) * World.

Definition ret {A} (a : A) : M A := λ w, (inr a, w).

Definition throw {A} (error : Thrown) : M A := λ w, (inl error, w).

Definition bind {A B} (m : M A) (k : A → M B) : M B :=
  λ w, match m w with
       | (inl error, w') => (inl error, w')
       | (inr a, w') => k a w'
       end.

Definition try_catch {A} (body : M A) (handler : Thrown → M A) : M A :=
  λ w, match body w with
       | (inl error, w') => handler error w'
       | (inr a, w') => (inr a, w')
       end.

Notation "x <- m ;; k" := (bind m (λ x, k))
  (at level 100, m at next level, right associativity).
Notation "m ;;; k" := (bind m (λ _, k))
  (at level 100, right associativity).

Definition await {A} (outcome : JsError + A) : M A :=
  match outcome with
  | inl e => throw (PlainError e)
  | inr a => ret a
  end.

(** [await] of a method of the class itself, which throws a [Thrown]. *)
Definition await_own {A} (outcome : Thrown + A) : M A :=
  match outcome with
  | inl error => throw error
  | inr a => ret a
  end.

Definition on_tracker (f : ProgressTracker.t Callback → ProgressTracker.t Callback)
  : M unit :=
  λ w, (inr tt, {| progressTracker := f (progressTracker w);
                   draws := draws w; routines := routines w |}).

(** The routines pass finite progress values. *)
Definition updateProgress (jobId : string) (progress : Q) : M unit :=
  on_tracker (ProgressTracker.updateProgress jobId (JS.finite progress)).
Definition completeProgress (jobId : string) : M unit :=
  on_tracker (ProgressTracker.completeProgress jobId).
Definition removeProgress (jobId : string) : M unit :=
  on_tracker (ProgressTracker.removeProgress jobId).

Definition enter (call : RoutineCall) : M unit :=
  λ w, (inr tt, {| progressTracker := progressTracker w;
                   draws := draws w; routines := routines w ++ [call] |}).

Definition math_random36 : M string :=
  λ w, (inr (random36 (draws w)),
        {| progressTracker := progressTracker w;
           draws := S (draws w); routines := routines w |}).

Definition generateJobId : M string :=
  r <- math_random36 ;; ret (JS.substr r 2 9).

(** The job id that a call starting in [w] generates, and the world right
    after that draw. *)
Definition jobId_of (w : World) : string := JS.substr (random36 (draws w)) 2 9.

Definition after_draw (w : World) : World :=
  {| progressTracker := progressTracker w; draws := S (draws w);
     routines := routines w |}.

Definition configs : list (string * ToolConfig) :=
  [ ("pdf-to-word",
      {| allowedTypes := ["application/pdf"]; maxSize := 100 * 1024 * 1024 |});
    ("merge-pdf",
      {| allowedTypes := ["application/pdf"]; maxSize := 100 * 1024 * 1024 |});
    ("compress-pdf",
      {| allowedTypes := ["application/pdf"]; maxSize := 100 * 1024 * 1024 |});
    ("image-resize",
      {| allowedTypes := ["image/jpeg"; "image/png"; "image/gif"; "image/webp"];
         maxSize := 50 * 1024 * 1024 |});
    ("image-compress",
      {| allowedTypes := ["image/jpeg"; "image/png"; "image/gif"; "image/webp"];
         maxSize := 50 * 1024 * 1024 |}) ].

Definition fallbackConfig : ToolConfig :=
  {| allowedTypes := ["*/*"]; maxSize := 100 * 1024 * 1024 |}.

(** [return configs[toolId] || {allowedTypes: ['*/*'], maxSize: ...}] *)
Definition getToolConfig (toolId : string) : ToolConfigValue :=
  match JS.read (list_to_map configs : gmap string ToolConfig) toolId with
  | JS.own c => config c
  | JS.inherited => inherited_member
  | JS.undefined => config fallbackConfig
  end.

(** The [TypeError] of [allowedTypes.includes(file.type)] in [validateFile]
    when [allowedTypes] is [undefined].  The message is the engine's own
    (here V8's); no engine's text contains a word that
    [getUserFriendlyMessage] looks for. *)
Definition includes_of_undefined : Thrown :=
  PlainError
    {| err_name := "TypeError";
       err_message := "Cannot read properties of undefined (reading 'includes')" |}.

(** The method resolves with a validation result, or rejects with the
    [TypeError] thrown by [validateFile(file, undefined, undefined)]. *)
Definition validateFileForTool (file : File) (toolId : string)
  : Thrown + ValidationResult :=
  let toolConfig := getToolConfig toolId in
  let isValidContent := SecurityValidator.validateFileContent file in
  if negb isValidContent
  then inr {| isValid := false; errors := ["File content validation failed"] |}
  else match toolConfig with
       | config c => inr (validateFile formatBytes file (allowedTypes c) (maxSize c))
       | inherited_member => inl includes_of_undefined
       end.

(** Validation does not pass: the content check fails, or the metadata
    check produces an error or, for want of an allow-list, throws. *)
Definition fails_validation (file : File) (toolId : string) : Prop :=
  SecurityValidator.validateFileContent file = false ∨
  match getToolConfig toolId with
  | config c =>
      errors (validateFile formatBytes file (allowedTypes c) (maxSize c)) ≠ []
  | inherited_member => True
  end.

(** [file.size > toolConfig.maxSize]: the file is larger than the size cap
    configured for the tool (an inherited member has no [maxSize], and the
    comparison with [undefined] is false). *)
Definition over_maxSize (file : File) (toolId : string) : Prop :=
  match getToolConfig toolId with
  | config c => maxSize c < file_size file
  | inherited_member => False
  end.

(** The [case] labels of the dispatcher's [switch]. *)
Definition dispatchedTools : list string :=
  ["pdf-to-word"; "merge-pdf"; "compress-pdf"; "image-resize"; "image-compress"].

Definition newline : string := String (ascii_of_nat 10) EmptyString.

(** The page loop of [processPDFToWord], at page [i] of [totalPages]. *)
Fixpoint extractText (jobId : string) (totalPages : Z) (i : Z)
    (remaining : list (JsError + list string)) (fullText : string) : M string :=
  match remaining with
  | [] => ret fullText
  | page :: later =>
      items <- await page ;;
      let pageText := JS.join " " items in
      let fullText' := fullText +:+ pageText +:+ newline +:+ newline in
      let progress := (50 + (inject_Z i / inject_Z totalPages) * 40)%Q in
      updateProgress jobId progress ;;;
      extractText jobId totalPages (i + 1) later fullText'
  end.

Definition processPDFToWord (file : File) (options : ProcessingOptions)
    (jobId : string) : M ProcessedFile :=
  enter (processPDFToWord_called file options jobId) ;;;
  updateProgress jobId 10%Q ;;;
  buf <- await (arrayBuffer vendor file) ;;
  updateProgress jobId 30%Q ;;;
  pdf <- await (pdfjs_getDocument vendor buf) ;;
  updateProgress jobId 50%Q ;;;
  let totalPages := Z.of_nat (length pdf) in
  fullText <- extractText jobId totalPages 1 pdf "" ;;
  let bytes := wordDocumentBytes vendor fullText in
  updateProgress jobId 95%Q ;;;
  ret {| buffer := bytes;
         fileName := JS.replace_first (file_name file) ".pdf" ".html";
         mimeType := "text/html";
         size := Z.of_nat (length bytes) |}.

Definition compressPDF (file : File) (options : ProcessingOptions)
    (jobId : string) : M ProcessedFile :=
  enter (compressPDF_called file options jobId) ;;;
  updateProgress jobId 10%Q ;;;
  buf <- await (arrayBuffer vendor file) ;;
  updateProgress jobId 30%Q ;;;
  pdf <- await (pdflib_load vendor buf) ;;
  updateProgress jobId 60%Q ;;;
  compressedBytes <- await (pdflib_save_compact vendor pdf) ;;
  updateProgress jobId 90%Q ;;;
  ret {| buffer := compressedBytes;
         fileName := JS.replace_first (file_name file) ".pdf" "_compressed.pdf";
         mimeType := "application/pdf";
         size := Z.of_nat (length compressedBytes) |}.

(** [Math.round] *)
Definition round (q : Q) : Z := Qfloor (q + (1 # 2))%Q.

(** The quotient and the product are computed exactly here, in double
    precision by the code: the rounded height can differ by one (a 320x23
    image gives 57 there, 58 here) and a zero width gives [NaN] there. The
    height only reaches the canvas; no property below depends on it. *)
Definition calculateNewDimensions (originalWidth originalHeight : Z)
    (options : ProcessingOptions) : Z * Z :=
  let targetWidth := 800 in
  let aspectRatio := (inject_Z originalHeight / inject_Z originalWidth)%Q in
  (targetWidth, round (inject_Z targetWidth * aspectRatio)).

Definition getCompressionQuality (quality : string) : Q :=
  if String.eqb quality "high" then (9 # 10)%Q
  else if String.eqb quality "medium" then (7 # 10)%Q
  else if String.eqb quality "low" then (5 # 10)%Q
  else (7 # 10)%Q.

Definition error (msg : string) : Thrown :=
  PlainError {| err_name := "Error"; err_message := msg |}.

Definition resizeImage (file : File) (options : ProcessingOptions)
    (jobId : string) : M ProcessedFile :=
  enter (resizeImage_called file options jobId) ;;;
  updateProgress jobId 10%Q ;;;
  if negb (canvas_getContext vendor)
  then throw (error "Canvas context not available")
  else
    match image_load vendor file with
    | None => throw (error "Failed to load image")
    | Some (imgWidth, imgHeight) =>
        updateProgress jobId 50%Q ;;;
        let '(width, height) := calculateNewDimensions imgWidth imgHeight options in
        updateProgress jobId 80%Q ;;;
        match canvas_toBlob vendor file width height "image/png" (9 # 10)%Q with
        | None => throw (error "Failed to create blob")
        | Some blob =>
            ret {| buffer := blob;
                   fileName := JS.replace_extension (file_name file) "_resized.png";
                   mimeType := "image/png";
                   size := Z.of_nat (length blob) |}
        end
    end.

(** [options.quality || 'medium'] *)
Definition quality_or_medium (options : ProcessingOptions) : string :=
  match quality options with
  | Some q => if String.eqb q "" then "medium" else q
  | None => "medium"
  end.

Definition compressImage (file : File) (options : ProcessingOptions)
    (jobId : string) : M ProcessedFile :=
  enter (compressImage_called file options jobId) ;;;
  updateProgress jobId 10%Q ;;;
  if negb (canvas_getContext vendor)
  then throw (error "Canvas context not available")
  else
    match image_load vendor file with
    | None => throw (error "Failed to load image")
    | Some (imgWidth, imgHeight) =>
        updateProgress jobId 40%Q ;;;
        updateProgress jobId 70%Q ;;;
        let q := getCompressionQuality (quality_or_medium options) in
        match canvas_toBlob vendor file imgWidth imgHeight "image/jpeg" q with
        | None => throw (error "Failed to create blob")
        | Some blob =>
            ret {| buffer := blob;
                   fileName := JS.replace_extension (file_name file) "_compressed.jpg";
                   mimeType := "image/jpeg";
                   size := Z.of_nat (length blob) |}
        end
    end.

(** The file loop of [mergePDFs], at index [i] of [totalFiles]. *)
Fixpoint mergeLoop (jobId : string) (totalFiles : Z) (i : Z)
    (remaining : list File) (mergedPdf : list (Page vendor))
    : M (list (Page vendor)) :=
  match remaining with
  | [] => ret mergedPdf
  | file :: later =>
      buf <- await (arrayBuffer vendor file) ;;
      pdf <- await (pdflib_load vendor buf) ;;
      let mergedPdf' := mergedPdf ++ pdf in
      let progress := (10 + (inject_Z (i + 1) / inject_Z totalFiles) * 80)%Q in
      updateProgress jobId progress ;;;
      mergeLoop jobId totalFiles (i + 1) later mergedPdf'
  end.

Definition mergePDFs (files : list File) (options : ProcessingOptions)
    (jobId : string) : M ProcessedFile :=
  enter (mergePDFs_called files options jobId) ;;;
  updateProgress jobId 10%Q ;;;
  let totalFiles := Z.of_nat (length files) in
  mergedPdf <- mergeLoop jobId totalFiles 0 files [] ;;
  mergedBytes <- await (pdflib_save vendor mergedPdf) ;;
  ret {| buffer := mergedBytes;
         fileName := "merged_document.pdf";
         mimeType := "application/pdf";
         size := Z.of_nat (length mergedBytes) |}.

(** The error thrown by the [default] branch of the dispatcher. *)
Definition tool_not_found (toolId : string) : Thrown :=
  Processing
    {| message := "Tool " +:+ toolId +:+ " not implemented";
       code := "TOOL_NOT_FOUND";
       recoverable := false;
       context := Some "tool_processing" |}.

Definition processFileByTool (file : File) (toolId : string)
    (options : ProcessingOptions) (jobId : string) : M ProcessedFile :=
  if String.eqb toolId "pdf-to-word" then processPDFToWord file options jobId
  else if String.eqb toolId "merge-pdf" then mergePDFs [file] options jobId
  else if String.eqb toolId "compress-pdf" then compressPDF file options jobId
  else if String.eqb toolId "image-resize" then resizeImage file options jobId
  else if String.eqb toolId "image-compress" then compressImage file options jobId
  else throw (tool_not_found toolId).

(** The error thrown inside [processFile] when validation fails. *)
Definition validation_error (validation : ValidationResult) : Thrown :=
  Processing
    {| message := JS.join ", " (errors validation);
       code := "VALIDATION_ERROR";
       recoverable := true;
       context := Some "file_validation" |}.

(** The body of the [try] block of [processFile]. *)
Definition processFile_try (file : File) (toolId : string)
    (options : ProcessingOptions) (jobId : string) : M ProcessedFile :=
  validation <- await_own (validateFileForTool file toolId) ;;
  if negb (isValid validation)
  then throw (validation_error validation)
  else
    updateProgress jobId 0%Q ;;;
    result <- processFileByTool file toolId options jobId ;;
    completeProgress jobId ;;;
    ret result.

(** The [catch] clause of [processFile]. *)
Definition processFile_catch (toolId : string) (jobId : string)
    (error : Thrown) : M ProcessedFile :=
  removeProgress jobId ;;;
  r <- math_random36 ;;
  throw (Processing
    (ErrorHandler.handleProcessingError r error ("tool_" +:+ toolId))).

Definition processFile (file : File) (toolId : string)
    (options : ProcessingOptions) : M ProcessedFile :=
  jobId <- generateJobId ;;
  try_catch (processFile_try file toolId options jobId)
            (processFile_catch toolId jobId).

(** The job id has no callback registered in the processor's tracker. *)
Definition unregistered (jobId : string) (w : World) : Prop :=
  ProgressTracker.progressCallbacks (progressTracker w) !! jobId = None.

(** A computation that, run with [jobId] unregistered, hands the tracker
    back as it found it: same registrations, no callback fired. *)
Definition keeps_tracker {A} (jobId : string) (m : M A) : Prop :=
  ∀ w, unregistered jobId w → progressTracker (m w).2 = progressTracker w.

(** A computation that hands one component of the world back unchanged,
    and a computation whose every returned value satisfies [Q]. *)
Definition keeps {A X} (proj : World → X) (m : M A) : Prop :=
  ∀ w, proj (m w).2 = proj w.

Definition returns {A} (Q : A → Prop) (m : M A) : Prop :=
  ∀ w a w', m w = (inr a, w') → Q a.

(** The MIME type of the output of each dispatched tool. *)
Definition outputTypes : list (string * string) :=
  [ ("pdf-to-word", "text/html");
    ("merge-pdf", "application/pdf");
    ("compress-pdf", "application/pdf");
    ("image-resize", "image/png");
    ("image-compress", "image/jpeg") ].

End Processor.
Arguments World : clear implicits.
Arguments M : clear implicits.
End FileProcessor.

(** ** Sample inputs

    A toy vendor (one page per document, the page being the document's
    bytes; saving concatenates the pages) and a few files, used to run the
    pipeline on concrete calls. *)

Module Sample.

Definition vendor : Vendor :=
  {| Page := list Z;
     arrayBuffer := λ file, inr (default [] (file_head file));
     pdfjs_getDocument := λ buf, inr [inr ["Hello"; "world"]];
     wordDocumentBytes := λ text, [Z.of_nat (String.length text)];
     pdflib_load := λ buf, inr [buf];
     pdflib_save := λ doc, inr (concat doc);
     pdflib_save_compact := λ doc, inr (concat doc);
     canvas_getContext := true;
     image_load := λ file, Some (1600, 1200);
     canvas_toBlob := λ file w h mime q, Some [w; h] |}.

(** [formatBytes] on the two size caps in use. *)
Definition formatBytes (bytes : Z) : string :=
  if bytes =? 100 * 1024 * 1024 then "100 MB"
  else if bytes =? 50 * 1024 * 1024 then "50 MB"
  else "0 Bytes".

(** Successive values of [Math.random().toString(36)]. *)
Definition random36 (n : nat) : string :=
  match n with
  | O => "0.4fzyo82mvyr"
  | S O => "0.k3v9x01ab2c"
  | _ => "0.z7"
  end.

(** A small, well-formed PDF. *)
Definition report_pdf : File :=
  {| file_name := "report.pdf"; file_type := "application/pdf";
     file_size := 6; file_head := Some [0x25; 0x50; 0x44; 0x46; 0x2D; 0x31] |}.

Definition annex_pdf : File :=
  {| file_name := "annex.pdf"; file_type := "application/pdf";
     file_size := 6; file_head := Some [0x25; 0x50; 0x44; 0x46; 0x2D; 0x32] |}.

(** A PDF one byte over the 100MB cap. *)
Definition huge_pdf : File :=
  {| file_name := "huge.pdf"; file_type := "application/pdf";
     file_size := 100 * 1024 * 1024 + 1;
     file_head := Some [0x25; 0x50; 0x44; 0x46; 0x2D; 0x31; 0x2E; 0x37;
                        0x0A; 0x25; 0xE2; 0xE3; 0xCF; 0xD3; 0x0A; 0x31] |}.

(** An executable whose declared type is spoofed. *)
Definition malware_exe : File :=
  {| file_name := "malware.exe"; file_type := "application/pdf";
     file_size := 4; file_head := Some [0x4D; 0x5A; 0x90; 0x00] |}.

(** A file whose declared type is the literal wildcard. *)
Definition wildcard_file : File :=
  {| file_name := "blob.bin"; file_type := "*/*";
     file_size := 3; file_head := Some [1; 2; 3] |}.

Definition with_additional (files : list File) : ProcessingOptions :=
  {| quality := None; compression := None; format := None; pages := None;
     additionalFiles := Some files |}.

Definition idle {Callback : Type} : FileProcessor.World Callback :=
  {| FileProcessor.progressTracker :=
       {| ProgressTracker.progressCallbacks := ∅; ProgressTracker.fired := [] |};
     FileProcessor.draws := 0;
     FileProcessor.routines := [] |}.

Definition processFile :=
  FileProcessor.processFile (Callback := nat) formatBytes vendor random36.

End Sample.

(** ** The processing store ([store/processingStore.ts]) *)

Module ProcessingStore.

Inductive Status := pending | processing | completed | failed.

Global Instance Status_eq_dec : EqDecision Status.
Proof. solve_decision. Defined.

Section Store.

(** The payload of [result] is opaque ([any]): [None] is an omitted
    argument or an absent field, a present value is truthy or falsy ([0],
    the empty string, [null], ...) as [truthy] says. *)
Context {Result : Type}.
Variable truthy : Result → bool.

Record ProcessingJob := {
  id : string;
  toolId : string;
  toolName : string;
  files : list (string * Z);
  status : Status;
  progress : JS.number;
  startTime : Z;
  endTime : option Z;
  result : option Result;
  error : option string
}.

(** [error || job.error]: the empty string is falsy. *)
Definition error_or (error job_error : option string) : option string :=
  match error with
  | Some msg => if String.eqb msg "" then job_error else Some msg
  | None => job_error
  end.

(** [result || job.result] *)
Definition result_or (result job_result : option Result) : option Result :=
  match result with
  | Some r => if truthy r then Some r else job_result
  | None => job_result
  end.

Definition addJob (job : ProcessingJob) (jobs : list ProcessingJob)
  : list ProcessingJob :=
  job :: jobs.

(** The object built for a job whose id matches; [now] is [Date.now()]. *)
Definition updated (job : ProcessingJob) (now : Z) (progress' : JS.number)
    (status' : option Status) (result' : option Result)
    (error' : option string) : ProcessingJob :=
  {| id := id job;
     toolId := toolId job;
     toolName := toolName job;
     files := files job;
     status := default (status job) status';
     progress := progress';
     startTime := startTime job;
     endTime :=
       if bool_decide (status' = Some completed) || bool_decide (status' = Some failed)
       then Some now else endTime job;
     result := result_or result' (result job);
     error := error_or error' (error job) |}.

(** [state.jobs.map(...)]; [clock i] is the reading of [Date.now()] while
    the callback runs on the element at index [i]. *)
Definition updateProgress (clock : nat → Z) (jobId : string) (progress' : JS.number)
    (status' : option Status) (result' : option Result)
    (error' : option string) (jobs : list ProcessingJob) : list ProcessingJob :=
  imap (λ i job,
          if String.eqb (id job) jobId
          then updated job (clock i) progress' status' result' error'
          else job) jobs.

(** [job] with its progress replaced and every other field as it was. *)
Definition with_progress (progress' : JS.number) (job : ProcessingJob)
  : ProcessingJob :=
  {| id := id job;
     toolId := toolId job;
     toolName := toolName job;
     files := files job;
     status := status job;
     progress := progress';
     startTime := startTime job;
     endTime := endTime job;
     result := result job;
     error := error job |}.

Definition removeJob (jobId : string) (jobs : list ProcessingJob)
  : list ProcessingJob :=
  filter (λ job, id job ≠ jobId) jobs.

Definition is_active (job : ProcessingJob) : Prop :=
  status job = processing ∨ status job = pending.

Definition is_done (job : ProcessingJob) : Prop :=
  status job = completed ∨ status job = failed.

Definition clearCompleted (jobs : list ProcessingJob) : list ProcessingJob :=
  filter is_active jobs.

Definition getActiveJobs (jobs : list ProcessingJob) : list ProcessingJob :=
  filter is_active jobs.

Definition getCompletedJobs (jobs : list ProcessingJob) : list ProcessingJob :=
  filter is_done jobs.

End Store.
Arguments ProcessingJob : clear implicits.
End ProcessingStore.

(** ** The tool usage store ([store/toolStore.ts])

    The [persist] middleware only mirrors the state to storage. *)

Module ToolStore.

Record Usage := {
  count : Z;
  lastUsed : Z
}.

Definition MAX_USES_PER_TOOL : Z := 50.

(** [usageStats] is a plain object: [usageStats[toolId]] is the recorded
    entry, a member inherited from [Object.prototype] (truthy, without a
    [count]), or [undefined]. *)

(** [state.usageStats[toolId]?.count || 0] *)
Definition used (usageStats : gmap string Usage) (toolId : string) : Z :=
  match JS.read usageStats toolId with
  | JS.own stats => count stats
  | JS.inherited => 0
  | JS.undefined => 0
  end.

Definition incrementUsage (now : Z) (toolId : string)
    (usageStats : gmap string Usage) : gmap string Usage :=
  <[toolId := {| count := used usageStats toolId + 1; lastUsed := now |}]> usageStats.

(** [!stats || stats.count < MAX_USES_PER_TOOL]; on an inherited member
    the comparison is [undefined < 50], which is false. *)
Definition isToolAvailable (toolId : string)
    (usageStats : gmap string Usage) : bool :=
  match JS.read usageStats toolId with
  | JS.undefined => true
  | JS.own stats => count stats <? MAX_USES_PER_TOOL
  | JS.inherited => false
  end.

Definition getRemainingUses (toolId : string)
    (usageStats : gmap string Usage) : Z :=
  Z.max 0 (MAX_USES_PER_TOOL - used usageStats toolId).

Definition resetUsage (now : Z) (toolId : string)
    (usageStats : gmap string Usage) : gmap string Usage :=
  <[toolId := {| count := 0; lastUsed := now |}]> usageStats.

End ToolStore.

(** ** The tool panel ([EnhancedToolInterface]): helpers and the drop handler *)

Module ToolPanel.

Definition is_digit (c : ascii) : bool :=
  let n := N_of_ascii c in ((48 <=? n) && (n <=? 57))%N.

(** [\s] on 8-bit code units: tab, line feed, vertical tab, form feed,
    carriage return, space, no-break space. *)
Definition is_space (c : ascii) : bool :=
  let n := N_of_ascii c in
  ((9 <=? n) && (n <=? 13) || (n =? 32) || (n =? 160))%N.

(** The longest run of digits at the start of [s], and what follows it. *)
Fixpoint span_digits (s : string) : string * string :=
  match s with
  | EmptyString => (EmptyString, EmptyString)
  | String c s' =>
      if is_digit c
      then let '(digits, rest) := span_digits s' in (String c digits, rest)
      else (EmptyString, s)
  end.

Fixpoint skip_spaces (s : string) : string :=
  match s with
  | EmptyString => EmptyString
  | String c s' => if is_space c then skip_spaces s' else s
  end.

(** [(KB|MB|GB)] under the [i] flag, at the start of [s]: the matched text. *)
Definition unit_at (s : string) : option string :=
  match s with
  | String a (String b _) =>
      if (JS.char_match_i "K" a || JS.char_match_i "M" a || JS.char_match_i "G" a)
         && JS.char_match_i "B" b
      then Some (String a (String b EmptyString))
      else None
  | _ => None
  end.

(** [/(\d+)\s*(KB|MB|GB)/i] anchored at the start of [s]: both quantifiers
    are greedy and giving back a digit or a blank can never help, the next
    code unit then being a digit or a blank again. *)
Definition match_here (s : string) : option (string * string) :=
  match span_digits s with
  | (EmptyString, _) => None
  | (digits, rest) =>
      match unit_at (skip_spaces rest) with
      | Some unit => Some (digits, unit)
      | None => None
      end
  end.

(** [sizeStr.match(...)]: the leftmost start position that matches; the
    two capture groups. *)
Fixpoint regex_match (s : string) : option (string * string) :=
  match match_here s with
  | Some groups => Some groups
  | None =>
      match s with
      | EmptyString => None
      | String _ s' => regex_match s'
      end
  end.

(** [parseInt] on a string of decimal digits. *)
Definition digit_value (c : ascii) : Z := Z.of_N (N_of_ascii c) - 48.

Fixpoint parseInt_from (acc : Z) (digits : string) : Z :=
  match digits with
  | EmptyString => acc
  | String c digits' => parseInt_from (10 * acc + digit_value c) digits'
  end.

Definition parseInt (digits : string) : Z := parseInt_from 0 digits.

Fixpoint toUpperCase (s : string) : string :=
  match s with
  | EmptyString => EmptyString
  | String c s' => String (JS.canonicalize c) (toUpperCase s')
  end.

Definition units : list (string * Z) :=
  [ ("KB", 1024); ("MB", 1024 * 1024); ("GB", 1024 * 1024 * 1024) ].

(** The matched unit, upper-cased, is always a key of [units]; the [None]
    branch of the lookup is never taken. The product is exact here; the
    code's product of doubles is the same up to 2^53 and rounded above. *)
Definition parseFileSize (sizeStr : string) : Z :=
  match regex_match sizeStr with
  | Some (digits, unit) =>
      match (list_to_map units : gmap string Z) !! toUpperCase unit with
      | Some factor => parseInt digits * factor
      | None => 0
      end
  | None => 100 * 1024 * 1024
  end.

Definition mimeTypes : list (string * string) :=
  [ (".pdf", "application/pdf");
    (".doc", "application/msword");
    (".docx", "application/vnd.openxmlformats-officedocument.wordprocessingml.document");
    (".xls", "application/vnd.ms-excel");
    (".xlsx", "application/vnd.openxmlformats-officedocument.spreadsheetml.sheet");
    (".ppt", "application/vnd.ms-powerpoint");
    (".pptx", "application/vnd.openxmlformats-officedocument.presentationml.presentation");
    (".jpg", "image/jpeg");
    (".jpeg", "image/jpeg");
    (".png", "image/png");
    (".gif", "image/gif");
    (".bmp", "image/bmp");
    (".tiff", "image/tiff");
    (".webp", "image/webp");
    (".html", "text/html");
    (".txt", "text/plain");
    (".csv", "text/csv");
    (".json", "application/json");
    (".xml", "application/xml") ].

(** [mimeTypes[format] || 'application/octet-stream'], for a format that is
    not the name of a member inherited from [Object.prototype]; for such a
    name the code returns the inherited member, which is no string. *)
Definition getMimeType (format : string) : string :=
  default "application/octet-stream"
    ((list_to_map mimeTypes : gmap string string) !! format).

(** The fields of a [Tool] that the panel reads. *)
Record Tool := {
  tool_id : string;
  supportedFormats : list string;
  maxFileSize : string;
  maxFiles : Z
}.

(** A file refused by the dropzone, with the messages of its errors. *)
Record Rejection := {
  rejected_name : string;
  rejection_messages : list string
}.

Inductive Toast :=
  | toast_error (msg : string)
  | toast_success (msg : string).

(** The state the drop handler reads and writes: the shared rate limiter,
    the component's [files] and [validationErrors], and the toasts shown. *)
Record Panel := {
  requests : gmap string (list Z);
  files : list File;
  validationErrors : list string;
  toasts : list Toast
}.

Section Drop.

Variable formatBytes : Z → string.
(** [new Date(t).toLocaleTimeString()] *)
Variable toLocaleTimeString : Z → string.

(** The [forEach] over the accepted files: the valid ones, and one message
    per invalid one. *)
Fixpoint sort_accepted (tool : Tool) (maxSize : Z) (acceptedFiles : list File)
  : list File * list string :=
  match acceptedFiles with
  | [] => ([], [])
  | file :: later =>
      let validation := validateFile formatBytes file (supportedFormats tool) maxSize in
      let '(validFiles, messages) := sort_accepted tool maxSize later in
      if isValid validation
      then (file :: validFiles, messages)
      else (validFiles,
            (file_name file +:+ ": " +:+ JS.join ", " (errors validation)) :: messages)
  end.

(** [onDrop]; [now] is [Date.now()] inside [isAllowed], [userId] the value
    of [getUserId()]. *)
Definition onDrop (now : Z) (userId : string) (tool : Tool)
    (acceptedFiles : list File) (rejectedFiles : list Rejection)
    (st : Panel) : Panel :=
  let '(allowed, requests') := RateLimiter.isAllowed now userId (requests st) in
  if negb allowed
  then
    let resetTime := RateLimiter.getResetTime userId requests' in
    {| requests := requests'; files := files st;
       validationErrors := validationErrors st;
       toasts := toasts st ++
         [toast_error ("Rate limit exceeded. Try again at " +:+
                       toLocaleTimeString resetTime)] |}
  else if negb (bool_decide (length rejectedFiles = 0%nat))
  then
    let messages :=
      map (λ rejection,
             rejected_name rejection +:+ ": " +:+
             JS.join ", " (rejection_messages rejection)) rejectedFiles in
    {| requests := requests'; files := files st;
       validationErrors := messages;
       toasts := toasts st ++ [toast_error "Some files were rejected"] |}
  else
    let maxSize := parseFileSize (maxFileSize tool) in
    let '(validFiles, messages) := sort_accepted tool maxSize acceptedFiles in
    let st1 :=
      if negb (bool_decide (length messages = 0%nat))
      then {| requests := requests'; files := files st;
              validationErrors := messages;
              toasts := toasts st ++
                [toast_error (pretty (length messages) +:+ " file(s) failed validation")] |}
      else {| requests := requests'; files := files st;
              validationErrors := validationErrors st;
              toasts := toasts st |} in
    if negb (bool_decide (length validFiles = 0%nat))
    then {| requests := requests st1; files := files st1 ++ validFiles;
            validationErrors := [];
            toasts := toasts st1 ++
              [toast_success (pretty (length validFiles) +:+ " file(s) added successfully")] |}
    else st1.

End Drop.

End ToolPanel.

(** ** More sample inputs *)

Module SampleMore.

(** A vendor whose file access is denied by the browser. *)
Definition locked_vendor : Vendor :=
  {| Page := list Z;
     arrayBuffer := λ file,
       inl {| err_name := "SecurityError"; err_message := "access denied" |};
     pdfjs_getDocument := λ buf, inr [];
     wordDocumentBytes := λ text, [];
     pdflib_load := λ buf, inr [buf];
     pdflib_save := λ doc, inr (concat doc);
     pdflib_save_compact := λ doc, inr (concat doc);
     canvas_getContext := true;
     image_load := λ file, Some (1600, 1200);
     canvas_toBlob := λ file w h mime q, Some [w; h] |}.

Definition photo_jpg : File :=
  {| file_name := "photo.jpg"; file_type := "image/jpeg";
     file_size := 4; file_head := Some [0xFF; 0xD8; 0xFF; 0xE0] |}.

(** The world after a call from [Sample.idle] that made [n] draws and
    entered the given routines. *)
Definition after (n : nat) (calls : list RoutineCall) : FileProcessor.World nat :=
  {| FileProcessor.progressTracker :=
       {| ProgressTracker.progressCallbacks := ∅; ProgressTracker.fired := [] |};
     FileProcessor.draws := n;
     FileProcessor.routines := calls |}.

Definition compressed_report : ProcessedFile :=
  {| buffer := [0x25; 0x50; 0x44; 0x46; 0x2D; 0x31];
     fileName := "report_compressed.pdf";
     mimeType := "application/pdf";
     size := 6 |}.

Definition resized_photo : ProcessedFile :=
  {| buffer := [800; 600];
     fileName := "photo_resized.png";
     mimeType := "image/png";
     size := 2 |}.

(** A tool as the catalogue declares them, a panel with nothing in it, and
    a file whose declared type is the extension string itself. *)
Definition pdf_tool : ToolPanel.Tool :=
  {| ToolPanel.tool_id := "merge-pdf"; ToolPanel.supportedFormats := [".pdf"];
     ToolPanel.maxFileSize := "100MB"; ToolPanel.maxFiles := 10 |}.

Definition empty_panel : ToolPanel.Panel :=
  {| ToolPanel.requests := ∅; ToolPanel.files := [];
     ToolPanel.validationErrors := ["old message"]; ToolPanel.toasts := [] |}.

Definition busy_panel : ToolPanel.Panel :=
  {| ToolPanel.requests := {[ "anonymous" := replicate 50 1000 ]};
     ToolPanel.files := []; ToolPanel.validationErrors := [];
     ToolPanel.toasts := [] |}.

Definition dot_pdf_file : File :=
  {| file_name := "notes.pdf"; file_type := ".pdf";
     file_size := 6; file_head := Some [0x25; 0x50; 0x44; 0x46; 0x2D; 0x31] |}.

Definition time_text (t : Z) : string := "12:00:00".

Definition onDrop :=
  ToolPanel.onDrop Sample.formatBytes time_text.

(** Truthiness of a result that is a number: [0] is falsy. *)
Definition number_truthy (n : nat) : bool := negb (Nat.eqb n 0).

(** Two jobs of the processing store. *)
Definition running_job : ProcessingStore.ProcessingJob nat :=
  {| ProcessingStore.id := "job-a"; ProcessingStore.toolId := "merge-pdf";
     ProcessingStore.toolName := "Merge PDF";
     ProcessingStore.files := [("report.pdf", 6)];
     ProcessingStore.status := ProcessingStore.processing;
     ProcessingStore.progress := JS.finite 40; ProcessingStore.startTime := 1000;
     ProcessingStore.endTime := None; ProcessingStore.result := None;
     ProcessingStore.error := None |}.

Definition finished_job : ProcessingStore.ProcessingJob nat :=
  {| ProcessingStore.id := "job-b"; ProcessingStore.toolId := "compress-pdf";
     ProcessingStore.toolName := "Compress PDF";
     ProcessingStore.files := [("annex.pdf", 6)];
     ProcessingStore.status := ProcessingStore.completed;
     ProcessingStore.progress := JS.finite 100; ProcessingStore.startTime := 500;
     ProcessingStore.endTime := Some 900; ProcessingStore.result := Some 1%nat;
     ProcessingStore.error := None |}.

End SampleMore.

(** ** Notions used to state the properties *)

(** Lower-casing of a code unit and of a string, for "case-insensitively". *)
Definition to_lower (c : ascii) : ascii :=
  let n := N_of_ascii c in
  if ((65 <=? n) && (n <=? 90))%N then ascii_of_N (n + 32) else c.

Fixpoint lowercase (s : string) : string :=
  match s with
  | EmptyString => EmptyString
  | String c s' => String (to_lower c) (lowercase s')
  end.

(** The name ends in one of the four extensions, in any mix of cases. *)
Definition has_dangerous_extension (name : string) : Prop :=
  ∃ stem tail : string,
    name = stem +:+ tail ∧ lowercase tail ∈ [".exe"; ".bat"; ".cmd"; ".scr"].

(** No identifier holds more timestamps than the cap. *)
Definition bounded_history (requests : gmap string (list Z)) : Prop :=
  ∀ identifier stored,
    requests !! identifier = Some stored →
    (length stored ≤ RateLimiter.maxRequests)%nat.

(** A number within the percentage range: finite, from 0 to 100. *)
Definition in_percent_range (value : JS.number) : Prop :=
  match value with
  | JS.finite q => (0 <= q <= 100)%Q
  | _ => False
  end.

(** Every value handed to a callback so far is a percentage. *)
Definition fired_in_range {Callback : Type} (st : ProgressTracker.t Callback) : Prop :=
  Forall (λ entry : Callback * JS.number, in_percent_range entry.2)
         (ProgressTracker.fired st).

(** The six texts that [getUserFriendlyMessage] can return. *)
Definition friendlyMessages : list string :=
  [ "Storage quota exceeded. Please free up space and try again.";
    "Network connection lost. Please check your internet and retry.";
    "The file appears to be corrupted. Please try with a different file.";
    "Processing timed out. Please try with a smaller file.";
    "Insufficient memory to process this file. Please try with a smaller file.";
    "An unexpected error occurred. Please try again." ].

(** The suffix each tool splices into the name of its output: the image
    tools in place of the extension, the PDF tools in place of the first
    [.pdf]. *)
Definition imageSuffixes : list (string * string) :=
  [ ("image-resize", "_resized.png"); ("image-compress", "_compressed.jpg") ].

Definition pdfSuffixes : list (string * string) :=
  [ ("compress-pdf", "_compressed.pdf"); ("pdf-to-word", ".html") ].

(** Every code unit of the string passes the test; some code unit is the
    given one. *)
Fixpoint string_forall (P : ascii → bool) (s : string) : bool :=
  match s with
  | EmptyString => true
  | String c s' => P c && string_forall P s'
  end.

Fixpoint has_char (c : ascii) (s : string) : bool :=
  match s with
  | EmptyString => false
  | String c' s' => Ascii.eqb c' c || has_char c s'
  end.

(** * Properties *)

(** ** RateLimiter *)

Section RateLimiterFacts.
Import RateLimiter.

Lemma in_window_keeps now (l : list Z) :
  Forall (λ timestamp, now - timestamp < windowMs) l → in_window now l = l.
Proof.
  unfold in_window. induction 1 as [|ts l Hts _ IH]; [done|].
  rewrite filter_cons_True; [|done]. by rewrite IH.
Qed.

Lemma within_in_window t0 now (l : list Z) :
  within t0 now → Forall (within t0) l → in_window now l = l.
Proof.
  intros Hnow Hl. apply in_window_keeps.
  eapply Forall_impl; [exact Hl|]. unfold within in *. intros ts ?. lia.
Qed.

Lemma isAllowed_below_cap now identifier (requests : gmap string (list Z)) :
  (length (in_window now (default [] (requests !! identifier))) < maxRequests)%nat →
  isAllowed now identifier requests =
    (true, <[identifier := in_window now (default [] (requests !! identifier)) ++ [now]]> requests).
Proof.
  intros Hlt. unfold isAllowed. rewrite bool_decide_eq_false_2; [done|lia].
Qed.

Lemma isAllowed_at_cap now identifier (requests : gmap string (list Z)) :
  (maxRequests ≤ length (in_window now (default [] (requests !! identifier))))%nat →
  isAllowed now identifier requests = (false, requests).
Proof.
  intros Hge. unfold isAllowed. by rewrite bool_decide_eq_true_2.
Qed.

(** Answers of a run whose readings all lie in one window, from any stored
    history that lies in that window too: [true] while slots remain, then
    [false]. *)
Lemma run_in_one_window identifier t0 (clock : list Z) :
  ∀ (requests : gmap string (list Z)) (stored : list Z),
    default [] (requests !! identifier) = stored →
    Forall (within t0) stored →
    Forall (within t0) clock →
    (run identifier clock requests).1 =
      replicate (length clock `min` (maxRequests - length stored)) true ++
      replicate (length clock - (maxRequests - length stored)) false.
Proof.
  induction clock as [|now later IH]; intros requests stored Hst Hstored Hclock.
  - done.
  - apply Forall_cons in Hclock as [Hnow Hlater].
    pose proof (within_in_window _ _ _ Hnow Hstored) as Hkeep.
    cbn [run length].
    destruct (decide (maxRequests ≤ length stored)%nat) as [Hcap|Hfree].
    + rewrite isAllowed_at_cap; [|by rewrite Hst, Hkeep].
      specialize (IH requests stored Hst Hstored Hlater).
      destruct (run identifier later requests) as [answers final].
      cbn [fst] in *. rewrite IH.
      replace (maxRequests - length stored)%nat with 0%nat by lia.
      rewrite !Nat.min_0_r, !Nat.sub_0_r. reflexivity.
    + rewrite isAllowed_below_cap; [|rewrite Hst, Hkeep; lia].
      rewrite Hst, Hkeep.
      specialize (IH (<[identifier := stored ++ [now]]> requests) (stored ++ [now])).
      rewrite lookup_insert_eq in IH.
      specialize (IH eq_refl).
      destruct (run identifier later _) as [answers final].
      cbn [fst] in *. rewrite IH.
      * rewrite length_app. cbn [length].
        replace (maxRequests - length stored)%nat
          with (S (maxRequests - (length stored + 1)))%nat by lia.
        reflexivity.
      * apply Forall_app. split; [done|]. by apply Forall_singleton.
      * done.
Qed.

End RateLimiterFacts.

(** C5. Starting from an empty history for the identifier, 51 calls whose
    clock readings all fall in one 15-minute window are answered [true] fifty
    times and then [false]. *)
Theorem isAllowed_fifty_then_refused
    (identifier : string) (requests : gmap string (list Z))
    (clock : list Z) (t0 : Z) :
  default [] (requests !! identifier) = [] →
  length clock = 51%nat →
  Forall (RateLimiter.within t0) clock →
  (RateLimiter.run identifier clock requests).1 = replicate 50 true ++ [false].
Proof.
  intros Hempty Hlen Hclock.
  rewrite (run_in_one_window identifier t0 clock requests [] Hempty); [|done|done].
  rewrite Hlen. reflexivity.
Qed.

Lemma isAllowed_fifty_then_refused_witness :
  (RateLimiter.run "anonymous" (seqZ 1700000000000 51) ∅).1
  = replicate 50 true ++ [false].
Proof.
  apply (isAllowed_fifty_then_refused "anonymous" ∅ (seqZ 1700000000000 51) 1700000000000).
  - reflexivity.
  - reflexivity.
  - apply Forall_forall. intros now Hin.
    apply elem_of_seqZ in Hin. unfold RateLimiter.within, RateLimiter.windowMs. lia.
Defined.

(** C6. A call that finds the identifier at or above the cap answers [false]
    and returns the stored map as it was; a call below the cap answers [true]
    and stores the in-window timestamps followed by the current one. *)
Theorem isAllowed_refusal_leaves_state
    (now : Z) (identifier : string) (requests : gmap string (list Z)) :
  let validRequests :=
    RateLimiter.in_window now (default [] (requests !! identifier)) in
  ((RateLimiter.maxRequests ≤ length validRequests)%nat →
     RateLimiter.isAllowed now identifier requests = (false, requests)) ∧
  ((length validRequests < RateLimiter.maxRequests)%nat →
     RateLimiter.isAllowed now identifier requests =
       (true, <[identifier := validRequests ++ [now]]> requests)) ∧
  ((RateLimiter.isAllowed now identifier requests).1 = false →
     (RateLimiter.isAllowed now identifier requests).2 = requests).
Proof.
  cbv zeta. split; [apply isAllowed_at_cap|]. split; [apply isAllowed_below_cap|].
  unfold RateLimiter.isAllowed. case_bool_decide; [done|]. cbn. discriminate.
Qed.

Lemma isAllowed_refusal_leaves_state_witness :
  let full : gmap string (list Z) := {[ "anonymous" := replicate 50 1000 ]} in
  RateLimiter.isAllowed 2000 "anonymous" full = (false, full) ∧
  RateLimiter.isAllowed 2000 "guest" full = (true, <[ "guest" := [2000] ]> full).
Proof.
  cbv zeta.
  pose proof (isAllowed_refusal_leaves_state 2000 "anonymous"
                {[ "anonymous" := replicate 50 1000 ]}) as [Hcap _].
  pose proof (isAllowed_refusal_leaves_state 2000 "guest"
                {[ "anonymous" := replicate 50 1000 ]}) as [_ [Hfree _]].
  split.
  - apply Hcap. vm_compute. lia.
  - apply Hfree. vm_compute. lia.
Defined.

(** ** ProgressTracker *)

Section ClampFacts.
Import ProgressTracker.

Lemma clamp_finite (q : Q) :
  clamp (JS.finite q) = JS.finite (Qmin 100 (Qmax 0 q)).
Proof. reflexivity. Qed.

Lemma clamp_NaN : clamp JS.NaN = JS.NaN.
Proof. reflexivity. Qed.

Lemma clamp_range (p : JS.number) : p ≠ JS.NaN → in_percent_range (clamp p).
Proof.
  intros Hp. destruct p as [q| | |]; [| | |done].
  2: { change (0 <= 100 <= 100)%Q. lra. }
  2: { change (0 <= 0 <= 100)%Q. lra. }
  rewrite clamp_finite. cbn [in_percent_range]. split.
  - apply Q.min_glb; [done|]. apply Q.le_max_l.
  - apply Q.le_min_l.
Qed.

Lemma clamp_below (q : Q) : (q < 0)%Q → clamp (JS.finite q) = JS.finite 0.
Proof.
  intros Hq. rewrite clamp_finite. f_equal.
  unfold Qmax, GenericMinMax.gmax.
  destruct (0 ?= q)%Q eqn:Hcmp; [reflexivity| |reflexivity].
  apply Qlt_alt in Hcmp. lra.
Qed.

Lemma clamp_above (q : Q) : (100 < q)%Q → clamp (JS.finite q) = JS.finite 100.
Proof.
  intros Hq. rewrite clamp_finite. f_equal.
  unfold Qmax, GenericMinMax.gmax.
  destruct (0 ?= q)%Q eqn:Hcmp.
  - apply Qeq_alt in Hcmp. lra.
  - unfold Qmin, GenericMinMax.gmin.
    destruct (100 ?= q)%Q eqn:Hcmp'; [reflexivity|reflexivity|].
    apply Qgt_alt in Hcmp'. lra.
  - apply Qgt_alt in Hcmp. lra.
Qed.

Lemma clamp_inside (q : Q) :
  (0 <= q <= 100)%Q → ∃ v, clamp (JS.finite q) = JS.finite v ∧ (v == q)%Q.
Proof.
  intros [Hlo Hhi]. rewrite clamp_finite. eexists. split; [reflexivity|].
  rewrite (Q.max_r _ _ Hlo). by rewrite (Q.min_r _ _ Hhi).
Qed.

End ClampFacts.

(** C7, as the code has it. With a callback registered for the job id,
    [updateProgress] fires it once with [Math.min(100, Math.max(0, p))] and
    keeps the registrations; for every progress [p] other than [NaN] that
    value lies in [0,100]: 150 gives 100, -10 gives 0, a value below 0 gives
    0, a value above 100 (also [Infinity]) gives 100 and a value inside the
    range is handed on as it is; [NaN] is handed on as [NaN].  With no
    callback registered the tracker is returned as it was. *)
Theorem updateProgress_clamps_or_skips {Callback : Type}
    (st : ProgressTracker.t Callback) (jobId : string) (p : JS.number) :
  (∀ callback, ProgressTracker.progressCallbacks st !! jobId = Some callback →
     ProgressTracker.updateProgress jobId p st =
       {| ProgressTracker.progressCallbacks := ProgressTracker.progressCallbacks st;
          ProgressTracker.fired :=
            ProgressTracker.fired st ++ [(callback, ProgressTracker.clamp p)] |}
     ∧ ProgressTracker.fired
         (ProgressTracker.updateProgress jobId (JS.finite 150) st) =
         ProgressTracker.fired st ++ [(callback, JS.finite 100)]
     ∧ ProgressTracker.fired
         (ProgressTracker.updateProgress jobId (JS.finite (-10)) st) =
         ProgressTracker.fired st ++ [(callback, JS.finite 0)])
  ∧ (ProgressTracker.progressCallbacks st !! jobId = None →
       ProgressTracker.updateProgress jobId p st = st)
  ∧ (p ≠ JS.NaN → in_percent_range (ProgressTracker.clamp p))
  ∧ (∀ q, p = JS.finite q → (q < 0)%Q → ProgressTracker.clamp p = JS.finite 0)
  ∧ (∀ q, p = JS.finite q → (100 < q)%Q → ProgressTracker.clamp p = JS.finite 100)
  ∧ (∀ q, p = JS.finite q → (0 <= q <= 100)%Q →
       ∃ v, ProgressTracker.clamp p = JS.finite v ∧ (v == q)%Q)
  ∧ (p = JS.pos_infinity → ProgressTracker.clamp p = JS.finite 100)
  ∧ (p = JS.neg_infinity → ProgressTracker.clamp p = JS.finite 0)
  ∧ (p = JS.NaN → ProgressTracker.clamp p = JS.NaN).
Proof.
  split; [|split; [|split; [|split; [|split; [|split; [|split; [|split]]]]]]].
  - intros callback Hregistered. unfold ProgressTracker.updateProgress.
    rewrite Hregistered. cbn [ProgressTracker.fired]. by repeat split.
  - intros Hnone. unfold ProgressTracker.updateProgress. by rewrite Hnone.
  - apply clamp_range.
  - intros q ->. apply clamp_below.
  - intros q ->. apply clamp_above.
  - intros q ->. apply clamp_inside.
  - by intros ->.
  - by intros ->.
  - by intros ->.
Qed.

Lemma updateProgress_clamps_or_skips_witness :
  ProgressTracker.fired
    (ProgressTracker.updateProgress "job-1" (JS.finite 150)
       {| ProgressTracker.progressCallbacks := {[ "job-1" := 7%nat ]};
          ProgressTracker.fired := [] |})
  = [(7%nat, JS.finite 100)]
  ∧ ProgressTracker.fired
      (ProgressTracker.updateProgress "job-1" (JS.finite (-10))
         {| ProgressTracker.progressCallbacks := {[ "job-1" := 7%nat ]};
            ProgressTracker.fired := [] |})
    = [(7%nat, JS.finite 0)]
  ∧ ProgressTracker.updateProgress "job-2" (JS.finite 150)
      {| ProgressTracker.progressCallbacks := {[ "job-1" := 7%nat ]};
         ProgressTracker.fired := [] |}
    = {| ProgressTracker.progressCallbacks := {[ "job-1" := 7%nat ]};
         ProgressTracker.fired := [] |}
  ∧ in_percent_range (ProgressTracker.clamp (JS.finite 150)).
Proof.
  pose proof (updateProgress_clamps_or_skips
                {| ProgressTracker.progressCallbacks := {[ "job-1" := 7%nat ]};
                   ProgressTracker.fired := [] |} "job-1" (JS.finite 150))
    as (Hreg & _ & Hrange & _).
  pose proof (updateProgress_clamps_or_skips
                {| ProgressTracker.progressCallbacks := {[ "job-1" := 7%nat ]};
                   ProgressTracker.fired := [] |} "job-2" (JS.finite 150))
    as (_ & Hnone & _).
  destruct (Hreg 7%nat) as (_ & Hhigh & Hlow); [reflexivity|].
  split; [exact Hhigh|]. split; [exact Hlow|].
  split; [apply Hnone; reflexivity|].
  apply Hrange. discriminate.
Defined.

(** C7 as stated does not hold for every [p]: with a callback registered,
    [updateProgress(jobId, NaN)] hands [NaN] to it, which is no value of
    [0,100]. *)
Lemma updateProgress_NaN_reaches_callback :
  ProgressTracker.fired
    (ProgressTracker.updateProgress "job-1" JS.NaN
       {| ProgressTracker.progressCallbacks := {[ "job-1" := 7%nat ]};
          ProgressTracker.fired := [] |})
  = [(7%nat, JS.NaN)]
  ∧ ¬ in_percent_range JS.NaN
  ∧ ¬ (∀ p : JS.number, in_percent_range (ProgressTracker.clamp p)).
Proof.
  split; [reflexivity|]. split; [by intros []|].
  intros Hall. exact (Hall JS.NaN).
Qed.

(** ** validateFile *)

Section DangerousNames.

Lemma char_match_to_lower (c : ascii) : JS.char_match_i (to_lower c) c = true.
Proof. destruct c as [[] [] [] [] [] [] [] []]; reflexivity. Qed.

Lemma literal_to_end_lowercase (tail : string) :
  JS.literal_to_end_i (lowercase tail) tail = true.
Proof.
  induction tail as [|c tail IH]; [reflexivity|].
  cbn [lowercase JS.literal_to_end_i].
  by rewrite char_match_to_lower, IH.
Qed.

Lemma test_at_end_here (lit s : string) :
  JS.literal_to_end_i lit s = true → JS.test_literal_at_end_i lit s = true.
Proof.
  intros Hs. destruct s; cbn [JS.test_literal_at_end_i]; by rewrite Hs.
Qed.

Lemma test_at_end_app (lit stem tail : string) :
  JS.literal_to_end_i lit tail = true →
  JS.test_literal_at_end_i lit (stem +:+ tail) = true.
Proof.
  intros Htail. induction stem as [|c stem IH].
  - change (EmptyString +:+ tail) with tail. by apply test_at_end_here.
  - change (String c stem +:+ tail) with (String c (stem +:+ tail)).
    cbn [JS.test_literal_at_end_i]. rewrite IH. apply orb_true_r.
Qed.

Lemma dangerous_extension_detected (name : string) :
  has_dangerous_extension name → dangerous_name name = true.
Proof.
  intros (stem & tail & -> & Hext). unfold dangerous_name.
  apply existsb_exists. exists (lowercase tail). split.
  - by apply list_elem_of_In.
  - apply test_at_end_app, literal_to_end_lowercase.
Qed.

(** The converse: the pattern test accepts nothing else. *)

Lemma char_match_inv (p c : ascii) :
  p ∈ ["."; "e"; "x"; "b"; "a"; "t"; "c"; "m"; "d"; "s"; "r"]%char →
  JS.char_match_i p c = true → to_lower c = p.
Proof.
  intros Hp.
  repeat (apply elem_of_cons in Hp as [->|Hp];
          [destruct c as [[] [] [] [] [] [] [] []];
             intros Hm; first [discriminate Hm | reflexivity]|]).
  by apply elem_of_nil in Hp.
Qed.

Lemma literal_to_end_inv (lit s : string) :
  Forall (λ p, p ∈ ["."; "e"; "x"; "b"; "a"; "t"; "c"; "m"; "d"; "s"; "r"]%char)
         (String.list_ascii_of_string lit) →
  JS.literal_to_end_i lit s = true → lowercase s = lit.
Proof.
  revert s. induction lit as [|p lit IH]; intros s Hlit Hm.
  - destruct s; [reflexivity|discriminate Hm].
  - destruct s as [|c s]; [discriminate Hm|].
    cbn [JS.literal_to_end_i] in Hm. apply andb_true_iff in Hm as [Hc Hs].
    cbn [String.list_ascii_of_string] in Hlit.
    apply Forall_cons in Hlit as [Hp Hlit].
    cbn [lowercase]. by rewrite (char_match_inv _ _ Hp Hc), (IH _ Hlit Hs).
Qed.

Lemma test_at_end_inv (lit s : string) :
  JS.test_literal_at_end_i lit s = true →
  ∃ stem tail, s = stem +:+ tail ∧ JS.literal_to_end_i lit tail = true.
Proof.
  induction s as [|c s IH]; cbn [JS.test_literal_at_end_i]; intros Ht.
  - exists EmptyString, EmptyString. split; [reflexivity|].
    by rewrite orb_false_r in Ht.
  - apply orb_true_iff in Ht as [Hhere|Hlater].
    + by exists EmptyString, (String c s).
    + destruct (IH Hlater) as (stem & tail & -> & Htail).
      by exists (String c stem), tail.
Qed.

Lemma dangerous_name_iff (name : string) :
  dangerous_name name = true ↔ has_dangerous_extension name.
Proof.
  split; [|apply dangerous_extension_detected].
  unfold dangerous_name. intros Hex.
  apply existsb_exists in Hex as (pattern & Hin & Htest).
  apply test_at_end_inv in Htest as (stem & tail & -> & Htail).
  exists stem, tail. split; [reflexivity|].
  apply list_elem_of_In in Hin.
  assert (lowercase tail = pattern) as ->; [|exact Hin].
  apply literal_to_end_inv; [|exact Htail].
  unfold dangerousPatterns in Hin.
  repeat (apply elem_of_cons in Hin as [->|Hin];
          [cbn [String.list_ascii_of_string];
           repeat (apply Forall_cons; split;
                   [repeat first [apply list_elem_of_here | apply list_elem_of_further]|]);
           apply Forall_nil_2|]).
  by apply elem_of_nil in Hin.
Qed.

Lemma validateFile_dangerous formatBytes file types cap :
  dangerous_name (file_name file) = true →
  isValid (validateFile formatBytes file types cap) = false
  ∧ "File type not allowed for security reasons"
      ∈ errors (validateFile formatBytes file types cap).
Proof.
  intros Hd. unfold validateFile. rewrite Hd. cbn [isValid errors]. split.
  - apply bool_decide_eq_false_2. rewrite length_app. cbn. lia.
  - apply elem_of_app. right. apply list_elem_of_singleton. reflexivity.
Qed.

End DangerousNames.

(** C8. A file whose name ends in [.exe], [.bat], [.cmd] or [.scr], in any
    mix of cases, is rejected by [validateFile] whatever its declared type,
    the allow-list and the size cap are. *)
Theorem validateFile_rejects_dangerous_extension
    (formatBytes : Z → string) (file : File)
    (allowedTypes : list string) (maxSize : Z) :
  has_dangerous_extension (file_name file) →
  isValid (validateFile formatBytes file allowedTypes maxSize) = false.
Proof.
  intros Hext.
  apply validateFile_dangerous, dangerous_extension_detected, Hext.
Qed.

Lemma validateFile_rejects_dangerous_extension_witness :
  isValid (validateFile Sample.formatBytes Sample.malware_exe
             ["application/pdf"] (100 * 1024 * 1024)) = false.
Proof.
  apply (validateFile_rejects_dangerous_extension Sample.formatBytes
           Sample.malware_exe ["application/pdf"] (100 * 1024 * 1024)).
  exists "malware", ".exe". split; [reflexivity|].
  vm_compute. apply list_elem_of_here.
Defined.

(** ** FileProcessor *)

Lemma substr_length (s : string) (start len : nat) :
  (String.length (JS.substr s start len) ≤ len)%nat.
Proof.
  unfold JS.substr. revert start len.
  induction s as [|c s IH]; intros start len.
  - destruct start, len; cbn; lia.
  - destruct start as [|start].
    + destruct len as [|len]; cbn; [lia|]. specialize (IH 0%nat len). lia.
    + cbn. apply IH.
Qed.

Lemma errorId_is_short (random36 : string) (tag : string) :
  (9 < String.length tag)%nat → ErrorHandler.generateErrorId random36 ≠ tag.
Proof.
  intros Hlong Heq. unfold ErrorHandler.generateErrorId in Heq.
  pose proof (substr_length random36 2 9) as Hshort.
  rewrite Heq in Hshort. lia.
Qed.

Section ProcessorFacts.

Import FileProcessor.

Context {Callback : Type}.
Variable formatBytes : Z → string.
Variable vendor : Vendor.
Variable random36 : nat → string.

Lemma processFile_unfold file toolId options (w : World Callback) :
  processFile formatBytes vendor random36 file toolId options w =
    try_catch (processFile_try formatBytes vendor file toolId options (jobId_of random36 w))
              (processFile_catch random36 toolId (jobId_of random36 w))
              (after_draw w).
Proof. reflexivity. Qed.

Lemma processFile_catch_eq toolId jobId error (w : World Callback) :
  processFile_catch random36 toolId jobId error w =
    (inl (Processing (ErrorHandler.handleProcessingError
                        (random36 (draws w)) error ("tool_" +:+ toolId))),
     {| progressTracker := ProgressTracker.removeProgress jobId (progressTracker w);
        draws := S (draws w); routines := routines w |}).
Proof. reflexivity. Qed.

Lemma isValid_validateFile file types cap :
  isValid (validateFile formatBytes file types cap)
  = bool_decide (length (errors (validateFile formatBytes file types cap)) = 0%nat).
Proof. reflexivity. Qed.

(** The error list of [validateFile], check by check. *)
Lemma validateFile_errors file types cap :
  errors (validateFile formatBytes file types cap) =
    (if bool_decide (file_type file ∈ types) then []
     else ["File type " +:+ file_type file +:+ " not supported"]) ++
    (if cap <? file_size file
     then ["File size exceeds " +:+ formatBytes cap +:+ " limit"] else []) ++
    (if 255 <? Z.of_nat (String.length (file_name file))
     then ["File name too long"] else []) ++
    (if dangerous_name (file_name file)
     then ["File type not allowed for security reasons"] else []).
Proof.
  unfold validateFile. cbn [errors].
  destruct (bool_decide _), (cap <? _), (255 <? _), (dangerous_name _);
    reflexivity.
Qed.

Lemma fails_validation_invalid file toolId validation :
  fails_validation formatBytes file toolId →
  validateFileForTool formatBytes file toolId = inr validation →
  isValid validation = false.
Proof.
  unfold fails_validation, validateFileForTool.
  destruct (SecurityValidator.validateFileContent file); cbn [negb];
    [|by intros _ [= <-]].
  intros [Hcontent|Herrors]; [discriminate Hcontent|].
  destruct (getToolConfig toolId) as [c|]; [|discriminate].
  intros [= <-]. rewrite isValid_validateFile. apply bool_decide_eq_false_2.
  destruct (errors _); [done|]. cbn. lia.
Qed.

Lemma oversize_fails_validation file toolId :
  over_maxSize file toolId → fails_validation formatBytes file toolId.
Proof.
  unfold over_maxSize, fails_validation. intros Hbig. right.
  destruct (getToolConfig toolId) as [c|]; [|done].
  rewrite validateFile_errors.
  apply Z.ltb_lt in Hbig. rewrite Hbig.
  destruct (bool_decide _); discriminate.
Qed.

(** The only rejection of [validateFileForTool] is the [TypeError] of the
    missing allow-list. *)
Lemma validateFileForTool_rejection file toolId error :
  validateFileForTool formatBytes file toolId = inl error →
  error = includes_of_undefined
  ∧ SecurityValidator.validateFileContent file = true
  ∧ getToolConfig toolId = inherited_member.
Proof.
  unfold validateFileForTool.
  destruct (SecurityValidator.validateFileContent file); cbn [negb];
    [|discriminate].
  destruct (getToolConfig toolId); [discriminate|].
  by intros [= <-].
Qed.

Lemma processFile_try_invalid file toolId options jobId validation
    (w : World Callback) :
  validateFileForTool formatBytes file toolId = inr validation →
  isValid validation = false →
  processFile_try formatBytes vendor file toolId options jobId w =
    (inl (validation_error validation), w).
Proof.
  intros Hvalidation Hinvalid. unfold processFile_try, bind.
  rewrite Hvalidation. cbn [await_own ret]. by rewrite Hinvalid.
Qed.

Lemma processFile_try_rejected file toolId options jobId error
    (w : World Callback) :
  validateFileForTool formatBytes file toolId = inl error →
  processFile_try formatBytes vendor file toolId options jobId w = (inl error, w).
Proof.
  intros Hrejected. unfold processFile_try, bind. by rewrite Hrejected.
Qed.

(** The [try] block once validation has resolved with a valid result. *)
Lemma processFile_try_valid file toolId options jobId validation
    (w : World Callback) :
  validateFileForTool formatBytes file toolId = inr validation →
  isValid validation = true →
  processFile_try formatBytes vendor file toolId options jobId w =
    bind (updateProgress jobId 0%Q)
      (λ _, bind (processFileByTool vendor file toolId options jobId)
              (λ result, bind (completeProgress jobId) (λ _, ret result))) w.
Proof.
  intros Hvalidation Hvalid. unfold processFile_try. unfold bind at 1.
  rewrite Hvalidation. cbn [await_own ret]. by rewrite Hvalid.
Qed.

(** The three ways through the head of the [try] block. *)
Lemma processFile_try_cases file toolId options jobId (w : World Callback) :
  (∃ error,
     validateFileForTool formatBytes file toolId = inl error
     ∧ processFile_try formatBytes vendor file toolId options jobId w
       = (inl error, w))
  ∨ (∃ validation,
       validateFileForTool formatBytes file toolId = inr validation
       ∧ isValid validation = false
       ∧ processFile_try formatBytes vendor file toolId options jobId w
         = (inl (validation_error validation), w))
  ∨ (∃ validation,
       validateFileForTool formatBytes file toolId = inr validation
       ∧ isValid validation = true
       ∧ processFile_try formatBytes vendor file toolId options jobId w
         = bind (updateProgress jobId 0%Q)
             (λ _, bind (processFileByTool vendor file toolId options jobId)
                     (λ result, bind (completeProgress jobId) (λ _, ret result)))
             w).
Proof.
  destruct (validateFileForTool formatBytes file toolId) as [error|validation]
    eqn:Hvalidation.
  - left. exists error. split; [reflexivity|]. by apply processFile_try_rejected.
  - right. destruct (isValid validation) eqn:Hvalid.
    + right. exists validation. split; [reflexivity|]. split; [exact Hvalid|].
      by apply (processFile_try_valid _ _ _ _ validation).
    + left. exists validation. split; [reflexivity|]. split; [exact Hvalid|].
      by apply processFile_try_invalid.
Qed.

(** What the caller sees when the [try] block throws before anything else
    has happened: the error built by the [catch] clause, with nothing but
    the two random draws and the deregistration having happened. *)
Lemma processFile_thrown_at_once file toolId options error (w : World Callback) :
  processFile_try formatBytes vendor file toolId options (jobId_of random36 w)
    (after_draw w) = (inl error, after_draw w) →
  processFile formatBytes vendor random36 file toolId options w =
    (inl (Processing
            (ErrorHandler.handleProcessingError (random36 (S (draws w)))
               error ("tool_" +:+ toolId))),
     {| progressTracker :=
          ProgressTracker.removeProgress (jobId_of random36 w) (progressTracker w);
        draws := S (S (draws w)); routines := routines w |}).
Proof.
  intros Htry. rewrite processFile_unfold. unfold try_catch.
  rewrite Htry. apply processFile_catch_eq.
Qed.

Lemma processFile_invalid file toolId options validation (w : World Callback) :
  validateFileForTool formatBytes file toolId = inr validation →
  isValid validation = false →
  processFile formatBytes vendor random36 file toolId options w =
    (inl (Processing
            (ErrorHandler.handleProcessingError (random36 (S (draws w)))
               (validation_error validation) ("tool_" +:+ toolId))),
     {| progressTracker :=
          ProgressTracker.removeProgress (jobId_of random36 w) (progressTracker w);
        draws := S (S (draws w)); routines := routines w |}).
Proof.
  intros Hvalidation Hinvalid. apply processFile_thrown_at_once.
  by apply processFile_try_invalid.
Qed.

Lemma processFile_rejected file toolId options error (w : World Callback) :
  validateFileForTool formatBytes file toolId = inl error →
  processFile formatBytes vendor random36 file toolId options w =
    (inl (Processing
            (ErrorHandler.handleProcessingError (random36 (S (draws w)))
               error ("tool_" +:+ toolId))),
     {| progressTracker :=
          ProgressTracker.removeProgress (jobId_of random36 w) (progressTracker w);
        draws := S (S (draws w)); routines := routines w |}).
Proof.
  intros Hrejected. apply processFile_thrown_at_once.
  by apply processFile_try_rejected.
Qed.

Lemma handled_validation_error random (validation : ValidationResult) context0 :
  recoverable (ErrorHandler.handleProcessingError random
                 (validation_error validation) context0) = true
  ∧ code (ErrorHandler.handleProcessingError random
            (validation_error validation) context0)
    = ErrorHandler.generateErrorId random.
Proof. split; reflexivity. Qed.




Lemma undispatched_eqb toolId :
  toolId ∉ dispatchedTools →
  String.eqb toolId "pdf-to-word" = false
  ∧ String.eqb toolId "merge-pdf" = false
  ∧ String.eqb toolId "compress-pdf" = false
  ∧ String.eqb toolId "image-resize" = false
  ∧ String.eqb toolId "image-compress" = false.
Proof.
  intros Hnot. unfold dispatchedTools in Hnot.
  repeat split; apply String.eqb_neq; intros ->; apply Hnot;
    repeat first [apply list_elem_of_here | apply list_elem_of_further].
Qed.

Lemma processFileByTool_unknown file toolId options jobId (w : World Callback) :
  toolId ∉ dispatchedTools →
  processFileByTool vendor file toolId options jobId w
  = (inl (tool_not_found toolId), w).
Proof.
  intros Hnot. destruct (undispatched_eqb _ Hnot) as (H1 & H2 & H3 & H4 & H5).
  unfold processFileByTool. by rewrite H1, H2, H3, H4, H5.
Qed.



(** C1, as the code has it. When validation fails (in particular for a file
    over the tool's size cap; also when the metadata check throws),
    [processFile] fails with a [ProcessingError] whose [recoverable] flag is
    true, but whose [code] is the random error id written by the [catch]
    clause, never ['VALIDATION_ERROR']. *)
Theorem validation_failure_code_is_error_id
    file toolId options (w : World Callback) :
  fails_validation formatBytes file toolId ∨ over_maxSize file toolId →
  ∃ e, (processFile formatBytes vendor random36 file toolId options w).1
       = inl (Processing e)
     ∧ code e = ErrorHandler.generateErrorId (random36 (S (draws w)))
     ∧ code e ≠ "VALIDATION_ERROR"
     ∧ recoverable e = true.
Proof.
  intros Hfails.
  assert (fails_validation formatBytes file toolId) as Hf.
  { destruct Hfails as [?|Hbig]; [done|]. by apply oversize_fails_validation. }
  destruct (validateFileForTool formatBytes file toolId) as [error|validation]
    eqn:Hvalidation.
  { rewrite (processFile_rejected _ _ _ _ _ Hvalidation). cbn [fst].
    apply validateFileForTool_rejection in Hvalidation as (-> & _ & _).
    eexists. split; [reflexivity|]. split; [reflexivity|]. split; [|reflexivity].
    apply errorId_is_short. cbn. lia. }
  pose proof (fails_validation_invalid _ _ _ Hf Hvalidation) as Hinvalid.
  rewrite (processFile_invalid _ _ _ _ _ Hvalidation Hinvalid). cbn [fst].
  eexists. split; [reflexivity|].
  destruct (handled_validation_error (random36 (S (draws w))) validation
              ("tool_" +:+ toolId)) as [Hrec Hcode].
  rewrite Hcode. split; [reflexivity|]. split; [|exact Hrec].
  apply errorId_is_short. cbn. lia.
Qed.

(** C2, as the code has it. For a tool id that the dispatcher does not
    handle, [processFile] fails with a [ProcessingError] whose [code] is the
    random error id, never ['TOOL_NOT_FOUND'], and whose [recoverable] flag is
    true. *)
Theorem unknown_tool_code_is_error_id
    file toolId options (w : World Callback) :
  toolId ∉ dispatchedTools →
  ∃ e, (processFile formatBytes vendor random36 file toolId options w).1
       = inl (Processing e)
     ∧ code e = ErrorHandler.generateErrorId (random36 (S (draws w)))
     ∧ code e ≠ "TOOL_NOT_FOUND"
     ∧ recoverable e = true.
Proof.
  intros Hnot.
  destruct (validateFileForTool formatBytes file toolId) as [error|validation]
    eqn:Hvalidation.
  { rewrite (processFile_rejected _ _ _ _ _ Hvalidation). cbn [fst].
    apply validateFileForTool_rejection in Hvalidation as (-> & _ & _).
    eexists. split; [reflexivity|]. split; [reflexivity|]. split; [|reflexivity].
    apply errorId_is_short. cbn. lia. }
  destruct (isValid validation) eqn:Hvalid.
  - rewrite processFile_unfold. unfold try_catch.
    rewrite (processFile_try_valid _ _ _ _ _ _ Hvalidation Hvalid).
    unfold bind at 1.
    cbn [updateProgress on_tracker]. unfold bind at 1.
    rewrite (processFileByTool_unknown _ _ _ _ _ Hnot).
    rewrite processFile_catch_eq. cbn [fst draws after_draw].
    eexists. split; [reflexivity|]. split; [reflexivity|]. split; [|reflexivity].
    apply errorId_is_short. cbn. lia.
  - rewrite (processFile_invalid _ _ _ _ _ Hvalidation Hvalid). cbn [fst].
    eexists. split; [reflexivity|]. split; [reflexivity|]. split; [|reflexivity].
    apply errorId_is_short. cbn. lia.
Qed.


(** *** The tracker is a frame of every call with a fresh job id *)

Lemma updateProgress_unregistered jobId p (st : ProgressTracker.t Callback) :
  ProgressTracker.progressCallbacks st !! jobId = None →
  ProgressTracker.updateProgress jobId p st = st.
Proof. intros Hnone. unfold ProgressTracker.updateProgress. by rewrite Hnone. Qed.

Lemma removeProgress_unregistered jobId (st : ProgressTracker.t Callback) :
  ProgressTracker.progressCallbacks st !! jobId = None →
  ProgressTracker.removeProgress jobId st = st.
Proof.
  intros Hnone. unfold ProgressTracker.removeProgress.
  rewrite (delete_id _ _ Hnone). by destruct st.
Qed.

Lemma completeProgress_unregistered jobId (st : ProgressTracker.t Callback) :
  ProgressTracker.progressCallbacks st !! jobId = None →
  ProgressTracker.completeProgress jobId st = st.
Proof.
  intros Hnone. unfold ProgressTracker.completeProgress.
  rewrite (updateProgress_unregistered _ _ _ Hnone).
  by apply removeProgress_unregistered.
Qed.

Lemma keeps_ret {A} jobId (a : A) : keeps_tracker (Callback := Callback) jobId (ret a).
Proof. by intros w _. Qed.

Lemma keeps_throw {A} jobId error :
  keeps_tracker (Callback := Callback) (A := A) jobId (throw error).
Proof. by intros w _. Qed.

Lemma keeps_await {A} jobId (outcome : JsError + A) :
  keeps_tracker (Callback := Callback) jobId (await outcome).
Proof. destruct outcome; by intros w _. Qed.

Lemma keeps_await_own {A} jobId (outcome : Thrown + A) :
  keeps_tracker (Callback := Callback) jobId (await_own outcome).
Proof. destruct outcome; by intros w _. Qed.

Lemma keeps_enter jobId call : keeps_tracker (Callback := Callback) jobId (enter call).
Proof. by intros w _. Qed.

Lemma keeps_math_random36 jobId :
  keeps_tracker (Callback := Callback) jobId (math_random36 random36).
Proof. by intros w _. Qed.

Lemma keeps_updateProgress jobId p :
  keeps_tracker (Callback := Callback) jobId (updateProgress jobId p).
Proof. intros w Hw. cbn. by apply updateProgress_unregistered. Qed.

Lemma keeps_completeProgress jobId :
  keeps_tracker (Callback := Callback) jobId (completeProgress jobId).
Proof. intros w Hw. cbn. by apply completeProgress_unregistered. Qed.

Lemma keeps_removeProgress jobId :
  keeps_tracker (Callback := Callback) jobId (removeProgress jobId).
Proof. intros w Hw. cbn. by apply removeProgress_unregistered. Qed.

Lemma keeps_bind {A B} jobId (m : M Callback A) (k : A → M Callback B) :
  keeps_tracker jobId m → (∀ a, keeps_tracker jobId (k a)) →
  keeps_tracker jobId (bind m k).
Proof.
  intros Hm Hk w Hw. unfold bind. specialize (Hm w Hw).
  destruct (m w) as [[error|a] w']; cbn [snd] in *; [done|].
  rewrite <- Hm. apply Hk. unfold unregistered. by rewrite Hm.
Qed.

Lemma keeps_try_catch {A} jobId (body : M Callback A) handler :
  keeps_tracker jobId body → (∀ error, keeps_tracker jobId (handler error)) →
  keeps_tracker jobId (try_catch body handler).
Proof.
  intros Hbody Hhandler w Hw. unfold try_catch. specialize (Hbody w Hw).
  destruct (body w) as [[error|a] w']; cbn [snd] in *; [|done].
  rewrite <- Hbody. apply Hhandler. unfold unregistered. by rewrite Hbody.
Qed.

Ltac keeps_step :=
  first
    [ apply keeps_ret | apply keeps_throw | apply keeps_await
    | apply keeps_await_own | apply keeps_enter | apply keeps_math_random36
    | apply keeps_updateProgress | apply keeps_completeProgress
    | apply keeps_removeProgress
    | apply keeps_bind; [|intros ?]
    | match goal with
      | |- keeps_tracker _ (if ?b then _ else _) => destruct b
      | |- keeps_tracker _ (match ?x with _ => _ end) => destruct x
      end ].

Ltac keeps := repeat keeps_step.

Lemma keeps_extractText jobId totalPages remaining :
  ∀ i fullText,
    keeps_tracker (Callback := Callback) jobId
      (extractText jobId totalPages i remaining fullText).
Proof.
  induction remaining as [|page later IH]; intros i fullText;
    cbn [extractText]; keeps. apply IH.
Qed.

Lemma keeps_mergeLoop jobId totalFiles remaining :
  ∀ i mergedPdf,
    keeps_tracker (Callback := Callback) jobId
      (mergeLoop vendor jobId totalFiles i remaining mergedPdf).
Proof.
  induction remaining as [|file later IH]; intros i mergedPdf;
    cbn [mergeLoop]; keeps. apply IH.
Qed.

Lemma keeps_processFileByTool file toolId options jobId :
  keeps_tracker (Callback := Callback) jobId
    (processFileByTool vendor file toolId options jobId).
Proof.
  unfold processFileByTool, processPDFToWord, mergePDFs, compressPDF,
    resizeImage, compressImage.
  keeps; first [apply keeps_extractText | apply keeps_mergeLoop].
Qed.

Lemma keeps_processFile_try file toolId options jobId :
  keeps_tracker (Callback := Callback) jobId
    (processFile_try formatBytes vendor file toolId options jobId).
Proof.
  unfold processFile_try. keeps. apply keeps_processFileByTool.
Qed.

Lemma keeps_processFile_catch toolId jobId error :
  keeps_tracker (Callback := Callback) jobId
    (processFile_catch random36 toolId jobId error).
Proof. unfold processFile_catch. keeps. Qed.

(** C10. When the job id that the call generates has no callback registered,
    [processFile] returns the tracker as it was, on success and on failure:
    the registration map is unchanged and no callback has fired. *)
Theorem processFile_leaves_tracker file toolId options (w : World Callback) :
  unregistered (jobId_of random36 w) w →
  progressTracker (processFile formatBytes vendor random36 file toolId options w).2
  = progressTracker w.
Proof.
  intros Hfresh. rewrite processFile_unfold.
  change (progressTracker w) with (progressTracker (after_draw w)).
  apply (keeps_try_catch (jobId_of random36 w)).
  - apply keeps_processFile_try.
  - intros error. apply keeps_processFile_catch.
  - exact Hfresh.
Qed.

(** *** The merge tool *)

Lemma dispatch_merge file options jobId :
  processFileByTool (Callback := Callback) vendor file "merge-pdf" options jobId
  = mergePDFs vendor [file] options jobId.
Proof. reflexivity. Qed.

(** C3, as the code has it. Whatever [options.additionalFiles] holds, a
    successful ['merge-pdf'] call enters the merge routine with the primary
    file alone, and the returned bytes are the saved pages of that one
    file. *)
Theorem merge_uses_primary_file_only
    file options (w : World Callback) (r : ProcessedFile) (w' : World Callback) :
  processFile formatBytes vendor random36 file "merge-pdf" options w = (inr r, w') →
  routines w'
  = routines w ++ [mergePDFs_called [file] options (jobId_of random36 w)]
  ∧ ∃ buf pdf,
      arrayBuffer vendor file = inr buf
      ∧ pdflib_load vendor buf = inr pdf
      ∧ pdflib_save vendor pdf = inr (buffer r).
Proof.
  rewrite processFile_unfold. unfold try_catch.
  destruct (processFile_try_cases file "merge-pdf" options (jobId_of random36 w)
              (after_draw w))
    as [(error & _ & ->)|[(validation & _ & _ & ->)|(validation & _ & _ & ->)]];
    [discriminate|discriminate|].
  rewrite dispatch_merge.
  unfold mergePDFs, bind, enter, updateProgress, on_tracker, await, throw, ret.
  cbn [mergeLoop length].
  unfold bind, updateProgress, on_tracker, await, throw, ret.
  destruct (arrayBuffer vendor file) as [e|buf] eqn:Hbuf; [discriminate|].
  destruct (pdflib_load vendor buf) as [e|pdf] eqn:Hload; [discriminate|].
  cbn [app].
  destruct (pdflib_save vendor pdf) as [e|bytes] eqn:Hsave; [discriminate|].
  unfold completeProgress, on_tracker. intros [= <- <-].
  cbn [routines after_draw buffer]. split; [reflexivity|].
  exists buf, pdf. done.
Qed.

End ProcessorFacts.

(** ** The pipeline on the sample calls *)

(** A PDF one byte over the cap, sent to the merge tool: the caller gets the
    generic message and the error id as [code]. *)
Example huge_pdf_outcome :
  (Sample.processFile Sample.huge_pdf "merge-pdf" no_options Sample.idle).1
  = inl (Processing
           {| message := "An unexpected error occurred. Please try again.";
              code := "k3v9x01ab";
              recoverable := true;
              context := Some "tool_merge-pdf" |}).
Proof. vm_compute. reflexivity. Qed.

(** A file that passes the fallback allow-list, sent to an unknown tool: the
    dispatcher's error is re-wrapped the same way. *)
Example unknown_tool_outcome :
  (Sample.processFile Sample.wildcard_file "unknown-tool-xyz" no_options Sample.idle).1
  = inl (Processing
           {| message := "An unexpected error occurred. Please try again.";
              code := "k3v9x01ab";
              recoverable := true;
              context := Some "tool_unknown-tool-xyz" |}).
Proof. vm_compute. reflexivity. Qed.

(** Two PDFs sent to the merge tool: the result holds the first one only. *)
Example merge_two_outcome :
  (Sample.processFile Sample.report_pdf "merge-pdf"
     (Sample.with_additional [Sample.annex_pdf]) Sample.idle).1
  = inr {| buffer := [0x25; 0x50; 0x44; 0x46; 0x2D; 0x31];
           fileName := "merged_document.pdf";
           mimeType := "application/pdf";
           size := 6 |}.
Proof. vm_compute. reflexivity. Qed.


Lemma validation_failure_code_is_error_id_witness :
  ∃ e,
    (Sample.processFile Sample.huge_pdf "merge-pdf" no_options Sample.idle).1
    = inl (Processing e)
    ∧ code e = ErrorHandler.generateErrorId (Sample.random36 1)
    ∧ code e ≠ "VALIDATION_ERROR"
    ∧ recoverable e = true.
Proof.
  apply (validation_failure_code_is_error_id (Callback := nat)
           Sample.formatBytes Sample.vendor Sample.random36
           Sample.huge_pdf "merge-pdf" no_options Sample.idle).
  right. vm_compute. reflexivity.
Defined.

Lemma unknown_tool_code_is_error_id_witness :
  ∃ e,
    (Sample.processFile Sample.wildcard_file "unknown-tool-xyz" no_options
       Sample.idle).1
    = inl (Processing e)
    ∧ code e = ErrorHandler.generateErrorId (Sample.random36 1)
    ∧ code e ≠ "TOOL_NOT_FOUND"
    ∧ recoverable e = true.
Proof.
  apply (unknown_tool_code_is_error_id (Callback := nat)
           Sample.formatBytes Sample.vendor Sample.random36
           Sample.wildcard_file "unknown-tool-xyz" no_options Sample.idle).
  unfold FileProcessor.dispatchedTools.
  rewrite !not_elem_of_cons. repeat split; try discriminate.
  apply not_elem_of_nil.
Defined.

Lemma merge_uses_primary_file_only_witness :
  ∃ buf pdf,
    arrayBuffer Sample.vendor Sample.report_pdf = inr buf
    ∧ pdflib_load Sample.vendor buf = inr pdf
    ∧ pdflib_save Sample.vendor pdf = inr [0x25; 0x50; 0x44; 0x46; 0x2D; 0x31].
Proof.
  apply (merge_uses_primary_file_only (Callback := nat)
           Sample.formatBytes Sample.vendor Sample.random36
           Sample.report_pdf (Sample.with_additional [Sample.annex_pdf])
           Sample.idle
           {| buffer := [0x25; 0x50; 0x44; 0x46; 0x2D; 0x31];
              fileName := "merged_document.pdf";
              mimeType := "application/pdf";
              size := 6 |}
           {| FileProcessor.progressTracker :=
                {| ProgressTracker.progressCallbacks := ∅;
                   ProgressTracker.fired := [] |};
              FileProcessor.draws := 1;
              FileProcessor.routines :=
                [mergePDFs_called [Sample.report_pdf]
                   (Sample.with_additional [Sample.annex_pdf]) "4fzyo82mv"] |}).
  vm_compute. reflexivity.
Defined.



Lemma processFile_leaves_tracker_witness :
  let busy : FileProcessor.World nat :=
    {| FileProcessor.progressTracker :=
         {| ProgressTracker.progressCallbacks := {[ "other-job" := 7%nat ]};
            ProgressTracker.fired := [(7%nat, JS.finite 40)] |};
       FileProcessor.draws := 0;
       FileProcessor.routines := [] |} in
  FileProcessor.progressTracker
    (Sample.processFile Sample.report_pdf "compress-pdf" no_options busy).2
  = FileProcessor.progressTracker busy.
Proof.
  cbv zeta.
  apply (processFile_leaves_tracker (Callback := nat)
           Sample.formatBytes Sample.vendor Sample.random36
           Sample.report_pdf "compress-pdf" no_options).
  vm_compute. reflexivity.
Defined.

(** * Further properties of the code *)

(** ** RateLimiter *)

Section RateLimiterMore.
Import RateLimiter.

Lemma in_window_none now (l : list Z) :
  Forall (λ timestamp, windowMs ≤ now - timestamp) l → in_window now l = [].
Proof.
  unfold in_window. induction 1 as [|ts l Hts _ IH]; [done|].
  rewrite filter_cons_False; [done|lia].
Qed.

Lemma in_window_all now (l : list Z) :
  Forall (λ timestamp, now - timestamp < windowMs) (in_window now l).
Proof.
  unfold in_window. apply Forall_forall. intros ts Hin.
  by apply list_elem_of_filter in Hin as [? _].
Qed.

Lemma in_window_full now (l : list Z) :
  (length l ≤ length (in_window now l))%nat →
  Forall (λ timestamp, now - timestamp < windowMs) l.
Proof.
  unfold in_window. induction l as [|ts l IH]; intros Hlen; [done|].
  destruct (decide (now - ts < windowMs)) as [Hin|Hout].
  - rewrite filter_cons_True in Hlen by done. cbn in Hlen.
    apply Forall_cons. split; [done|]. apply IH. lia.
  - rewrite filter_cons_False in Hlen by done.
    pose proof (length_filter (λ timestamp, now - timestamp < windowMs) l).
    cbn in Hlen. lia.
Qed.

(** [Math.min(...userRequests)] on a non-empty array. *)
Lemma oldest_spec (first : Z) (rest : list Z) :
  foldr Z.min first rest ∈ first :: rest
  ∧ Forall (λ timestamp, foldr Z.min first rest ≤ timestamp) (first :: rest).
Proof.
  induction rest as [|x rest [IHin IHall]]; cbn [foldr].
  - split; [apply list_elem_of_here|]. apply Forall_singleton. lia.
  - apply Forall_cons in IHall as [Hfirst Hrest]. split.
    + destruct (Z.min_spec x (foldr Z.min first rest)) as [[_ ->]|[_ ->]].
      * apply list_elem_of_further, list_elem_of_here.
      * apply elem_of_cons in IHin as [->|Hin];
          [apply list_elem_of_here|by do 2 apply list_elem_of_further].
    + repeat apply Forall_cons_2; [lia|lia|].
      eapply Forall_impl; [exact Hrest|]. cbn. intros; lia.
Qed.

End RateLimiterMore.

(** X1. Once every stored timestamp of an identifier is a full window old,
    the identifier is admitted again, however many requests it had made, and
    its history restarts from the current call. *)
Theorem isAllowed_after_window_elapsed
    (now : Z) (identifier : string) (requests : gmap string (list Z)) :
  Forall (λ timestamp, RateLimiter.windowMs ≤ now - timestamp)
         (default [] (requests !! identifier)) →
  RateLimiter.isAllowed now identifier requests
  = (true, <[identifier := [now]]> requests).
Proof.
  intros Hstale. rewrite isAllowed_below_cap.
  - by rewrite (in_window_none _ _ Hstale).
  - rewrite (in_window_none _ _ Hstale). cbn. unfold RateLimiter.maxRequests. lia.
Qed.

Lemma isAllowed_after_window_elapsed_witness :
  RateLimiter.isAllowed 900002 "anonymous" {[ "anonymous" := replicate 50 1 ]}
  = (true, <[ "anonymous" := [900002] ]> {[ "anonymous" := replicate 50 1 ]}).
Proof.
  apply (isAllowed_after_window_elapsed 900002 "anonymous"
           {[ "anonymous" := replicate 50 1 ]}).
  rewrite lookup_singleton_eq. cbn [default].
  apply Forall_forall. intros timestamp Hin.
  apply elem_of_replicate in Hin as [-> _].
  unfold RateLimiter.windowMs. lia.
Defined.

(** A call for one identifier leaves the history of every other
    identifier as it was. *)
Theorem isAllowed_other_identifiers
    (now : Z) (identifier other : string) (requests : gmap string (list Z)) :
  other ≠ identifier →
  (RateLimiter.isAllowed now identifier requests).2 !! other = requests !! other.
Proof.
  intros Hne. unfold RateLimiter.isAllowed.
  case_bool_decide; cbn [snd]; [done|]. by rewrite lookup_insert_ne.
Qed.

Lemma isAllowed_other_identifiers_witness :
  (RateLimiter.isAllowed 2000 "guest" {[ "anonymous" := [1000] ]}).2 !! "anonymous"
  = Some [1000].
Proof.
  rewrite (isAllowed_other_identifiers 2000 "guest" "anonymous"
             {[ "anonymous" := [1000] ]}); [reflexivity|discriminate].
Defined.

(** X2. No call makes a history longer than the cap: if every stored
    history holds at most 50 timestamps, so does every history afterwards. *)
Theorem isAllowed_keeps_histories_bounded
    (now : Z) (identifier : string) (requests : gmap string (list Z)) :
  bounded_history requests →
  bounded_history (RateLimiter.isAllowed now identifier requests).2.
Proof.
  intros Hb. unfold RateLimiter.isAllowed.
  case_bool_decide as Hcap; cbn [snd]; [done|].
  intros other stored Hlookup.
  destruct (decide (other = identifier)) as [->|Hne].
  - rewrite lookup_insert_eq in Hlookup. injection Hlookup as <-.
    rewrite length_app. cbn. lia.
  - rewrite lookup_insert_ne in Hlookup by done. by eapply Hb.
Qed.

Lemma isAllowed_keeps_histories_bounded_witness :
  bounded_history
    (RateLimiter.isAllowed 2000 "anonymous"
       {[ "anonymous" := replicate 49 1000 ]}).2.
Proof.
  apply (isAllowed_keeps_histories_bounded 2000 "anonymous"
           {[ "anonymous" := replicate 49 1000 ]}).
  intros identifier stored Hlookup.
  apply lookup_singleton_Some in Hlookup as [_ <-].
  rewrite length_replicate. unfold RateLimiter.maxRequests. lia.
Defined.

(** X3. [getRemainingRequests] lies between 0 and 50, is positive exactly
    when [isAllowed] at the same instant would admit the identifier, and an
    admitted call lowers it by one. *)
Theorem getRemainingRequests_agrees_with_isAllowed
    (now : Z) (identifier : string) (requests : gmap string (list Z)) :
  0 ≤ RateLimiter.getRemainingRequests now identifier requests ≤ 50
  ∧ ((RateLimiter.isAllowed now identifier requests).1 = true
     ↔ 0 < RateLimiter.getRemainingRequests now identifier requests)
  ∧ ((RateLimiter.isAllowed now identifier requests).1 = true →
     RateLimiter.getRemainingRequests now identifier
       (RateLimiter.isAllowed now identifier requests).2
     = RateLimiter.getRemainingRequests now identifier requests - 1).
Proof.
  unfold RateLimiter.getRemainingRequests, RateLimiter.isAllowed,
    RateLimiter.maxRequests.
  set (valid := RateLimiter.in_window now (default [] (requests !! identifier))).
  split; [lia|]. split.
  - case_bool_decide; cbn [fst]; split; intros; try done; lia.
  - case_bool_decide as Hcap; cbn [fst snd]; [done|]. intros _.
    rewrite lookup_insert_eq. cbn [default from_option id].
    assert (RateLimiter.in_window now (valid ++ [now]) = valid ++ [now]) as ->.
    { apply in_window_keeps, Forall_app. split; [apply in_window_all|].
      apply Forall_singleton. unfold RateLimiter.windowMs. lia. }
    rewrite length_app. cbn. lia.
Qed.

Lemma getRemainingRequests_agrees_with_isAllowed_witness :
  RateLimiter.getRemainingRequests 2000 "anonymous"
    (RateLimiter.isAllowed 2000 "anonymous" {[ "anonymous" := [1000; 1500] ]}).2
  = RateLimiter.getRemainingRequests 2000 "anonymous"
      {[ "anonymous" := [1000; 1500] ]} - 1.
Proof.
  apply (getRemainingRequests_agrees_with_isAllowed 2000 "anonymous"
           {[ "anonymous" := [1000; 1500] ]}).
  reflexivity.
Defined.

(** X4. When a call is refused for an identifier whose history holds at most
    50 timestamps, the reset time reported for it lies after the call. *)
Theorem refused_reset_time_is_later
    (now : Z) (identifier : string) (requests : gmap string (list Z)) :
  (length (default [] (requests !! identifier)) ≤ RateLimiter.maxRequests)%nat →
  (RateLimiter.isAllowed now identifier requests).1 = false →
  now < RateLimiter.getResetTime identifier requests.
Proof.
  intros Hbound. unfold RateLimiter.isAllowed, RateLimiter.getResetTime.
  case_bool_decide as Hcap; cbn [fst]; [intros _|discriminate].
  assert (Forall (λ timestamp, now - timestamp < RateLimiter.windowMs)
                 (default [] (requests !! identifier))) as Hall.
  { apply in_window_full. lia. }
  destruct (default [] (requests !! identifier)) as [|first rest].
  - cbn in Hcap. unfold RateLimiter.maxRequests in Hcap. lia.
  - destruct (oldest_spec first rest) as [Hin _].
    rewrite Forall_forall in Hall. specialize (Hall _ Hin). lia.
Qed.

Lemma refused_reset_time_is_later_witness :
  2000 < RateLimiter.getResetTime "anonymous" {[ "anonymous" := replicate 50 1000 ]}.
Proof.
  apply (refused_reset_time_is_later 2000 "anonymous"
           {[ "anonymous" := replicate 50 1000 ]}).
  - vm_compute. lia.
  - vm_compute. reflexivity.
Defined.

(** X5. At the reported reset time an identifier with a non-empty history of
    at most 50 timestamps is admitted. *)
Theorem admitted_at_reset_time
    (identifier : string) (requests : gmap string (list Z)) :
  default [] (requests !! identifier) ≠ [] →
  (length (default [] (requests !! identifier)) ≤ RateLimiter.maxRequests)%nat →
  (RateLimiter.isAllowed (RateLimiter.getResetTime identifier requests)
     identifier requests).1 = true.
Proof.
  intros Hne Hbound. unfold RateLimiter.getResetTime.
  destruct (default [] (requests !! identifier)) as [|first rest] eqn:Hstored;
    [done|].
  destruct (oldest_spec first rest) as [Hin _].
  rewrite isAllowed_below_cap; [reflexivity|].
  rewrite Hstored. unfold RateLimiter.in_window.
  eapply Nat.lt_le_trans; [|exact Hbound].
  eapply length_filter_lt; [exact Hin|]. lia.
Qed.

Lemma admitted_at_reset_time_witness :
  (RateLimiter.isAllowed
     (RateLimiter.getResetTime "anonymous" {[ "anonymous" := replicate 50 1000 ]})
     "anonymous" {[ "anonymous" := replicate 50 1000 ]}).1 = true.
Proof.
  apply (admitted_at_reset_time "anonymous" {[ "anonymous" := replicate 50 1000 ]}).
  - vm_compute. discriminate.
  - vm_compute. lia.
Defined.

(** ** SecurityValidator *)

Section MagicNumbers.
Import SecurityValidator.

Lemma every_byte_prefix (signature bytes : list Z) (index : nat) :
  every_byte signature index bytes = true ↔ signature `prefix_of` drop index bytes.
Proof.
  revert index. induction signature as [|byte rest IH]; intros index;
    cbn [every_byte].
  - split; [intros _; apply prefix_nil|done].
  - destruct (bytes !! index) as [b|] eqn:Hb.
    + rewrite (drop_S _ _ _ Hb), andb_true_iff, IH, Z.eqb_eq. split.
      * intros [-> Hrest]. by apply prefix_cons.
      * intros Hp. split; [by apply prefix_cons_inv_1 in Hp|
                           by apply prefix_cons_inv_2 in Hp].
    + rewrite (drop_ge bytes index) by (by apply lookup_ge_None).
      split; [done|]. intros Hp. by apply prefix_nil_inv in Hp.
Qed.

Lemma signature_is_short (mime : string) (signature : list Z) :
  lookup_signature mime = Some signature → (length signature ≤ 4)%nat.
Proof.
  unfold lookup_signature. intros Hl.
  apply elem_of_list_to_map_2 in Hl. unfold signatures in Hl.
  repeat (apply elem_of_cons in Hl as [[= -> ->]|Hl]; [cbn; lia|]).
  by apply elem_of_nil in Hl.
Qed.

Lemma prefix_of_take (signature bytes : list Z) (n : nat) :
  (length signature ≤ n)%nat →
  signature `prefix_of` take n bytes ↔ signature `prefix_of` bytes.
Proof.
  intros Hlen. split.
  - intros Hp. etransitivity; [exact Hp|]. apply prefix_take.
  - intros [tail ->]. rewrite take_app_ge by done.
    by apply prefix_app_r.
Qed.

Lemma checkMagicNumbers_prefix (bytes : list Z) (mime : string) :
  checkMagicNumbers bytes mime = true
  ↔ ∀ signature, lookup_signature mime = Some signature →
                 signature `prefix_of` bytes.
Proof.
  unfold checkMagicNumbers.
  destruct (lookup_signature mime) as [signature|].
  - rewrite every_byte_prefix, drop_0. split.
    + by intros Hp ? [= <-].
    + intros Hall. by apply Hall.
  - split; [by intros _ ?|done].
Qed.

Lemma checkMagicNumbers_prefix_take (head : list Z) (mime : string) :
  checkMagicNumbers (take 16 head) mime = true
  ↔ ∀ signature, lookup_signature mime = Some signature →
                 signature `prefix_of` head.
Proof.
  rewrite checkMagicNumbers_prefix. split; intros Hall signature Hsig.
  - apply (prefix_of_take _ _ 16); [|by apply Hall].
    pose proof (signature_is_short _ _ Hsig). lia.
  - apply prefix_of_take; [|by apply Hall].
    pose proof (signature_is_short _ _ Hsig). lia.
Qed.

End MagicNumbers.

(** X6. For a MIME type that is not the name of a member inherited from
    [Object.prototype] (for those names [signatures[mimeType]] is no array
    and [signature.every] throws), [checkMagicNumbers] accepts the bytes
    exactly when the signature registered for the type, if there is one, is
    a prefix of them; a type without a registered signature is accepted
    whatever the bytes. *)
Theorem checkMagicNumbers_iff_signature_prefix (bytes : list Z) (mime : string) :
  mime ∉ JS.objectPrototypeKeys →
  SecurityValidator.checkMagicNumbers bytes mime = true
  ↔ ∀ signature,
      SecurityValidator.lookup_signature mime = Some signature →
      signature `prefix_of` bytes.
Proof.
  intros _. unfold SecurityValidator.checkMagicNumbers.
  destruct (SecurityValidator.lookup_signature mime) as [signature|].
  - rewrite every_byte_prefix, drop_0. split.
    + by intros Hp ? [= <-].
    + intros Hall. by apply Hall.
  - split; [by intros _ ?|done].
Qed.

(** X7. For a file whose declared type is not the name of a member
    inherited from [Object.prototype] (for those names the check throws
    inside the reader's [onload] and the promise never settles), the content
    check resolves, and it passes exactly when the reader delivers the head
    of the file and that head starts with the signature of the declared type
    (if the type has one). So an unreadable file fails, a file shorter than
    its signature fails, and reading only 16 bytes loses nothing. *)
Theorem validateFileContent_iff (file : File) :
  file_type file ∉ JS.objectPrototypeKeys →
  SecurityValidator.validateFileContent file = true
  ↔ ∃ head,
      file_head file = Some head
      ∧ ∀ signature,
          SecurityValidator.lookup_signature (file_type file) = Some signature →
          signature `prefix_of` head.
Proof.
  intros _. unfold SecurityValidator.validateFileContent.
  destruct (file_head file) as [head|].
  - rewrite checkMagicNumbers_prefix_take. split.
    + intros Hall. by exists head.
    + by intros (? & [= <-] & Hall).
  - split; [done|]. by intros (? & ? & _).
Qed.

(** ** validateFile *)

Lemma prefix_append (s post : string) : String.prefix s (s +:+ post) = true.
Proof.
  induction s as [|c s IH]; [destruct post; reflexivity|].
  change (String c s +:+ post) with (String c (s +:+ post)).
  cbn [String.prefix]. destruct (ascii_dec c c) as [_|Hne]; [exact IH|done].
Qed.

Lemma includes_append (pre s post : string) :
  JS.includes (pre +:+ s +:+ post) s = true.
Proof.
  induction pre as [|c pre IH].
  - change (EmptyString +:+ s +:+ post) with (s +:+ post).
    destruct (s +:+ post) eqn:Heq; cbn [JS.includes];
      rewrite <- Heq; by rewrite prefix_append.
  - change (String c pre +:+ s +:+ post) with (String c (pre +:+ s +:+ post)).
    cbn [JS.includes]. rewrite IH. by destruct (String.prefix _ _).
Qed.

(** X8. [validateFile] reports a file as valid exactly when its declared
    type is in the allow-list, its size does not exceed the cap, its name has
    at most 255 code units and the name does not end in a dangerous
    extension. *)
Theorem validateFile_valid_iff
    (formatBytes : Z → string) (file : File)
    (allowedTypes : list string) (maxSize : Z) :
  isValid (validateFile formatBytes file allowedTypes maxSize) = true
  ↔ file_type file ∈ allowedTypes
    ∧ file_size file ≤ maxSize
    ∧ (String.length (file_name file) ≤ 255)%nat
    ∧ ¬ has_dangerous_extension (file_name file).
Proof.
  rewrite <- dangerous_name_iff.
  rewrite isValid_validateFile, bool_decide_eq_true, validateFile_errors.
  destruct (bool_decide (file_type file ∈ allowedTypes)) eqn:Htype;
    [apply bool_decide_eq_true in Htype|apply bool_decide_eq_false in Htype];
  destruct (maxSize <? file_size file) eqn:Hsize;
    [apply Z.ltb_lt in Hsize|apply Z.ltb_ge in Hsize| |];
  try (apply Z.ltb_lt in Hsize); try (apply Z.ltb_ge in Hsize);
  destruct (255 <? Z.of_nat (String.length (file_name file))) eqn:Hname;
  try (apply Z.ltb_lt in Hname); try (apply Z.ltb_ge in Hname);
  destruct (dangerous_name (file_name file)); cbn;
  split; try discriminate; try (intros (? & ? & ? & ?); done || lia);
  intros _; repeat split; done || lia.
Qed.

(** X9. A declared type outside the allow-list always yields, as the first
    error, a message that contains the offending type. *)
Theorem validateFile_names_offending_type
    (formatBytes : Z → string) (file : File)
    (allowedTypes : list string) (maxSize : Z) :
  file_type file ∉ allowedTypes →
  ∃ msg rest,
    errors (validateFile formatBytes file allowedTypes maxSize) = msg :: rest
    ∧ msg = "File type " +:+ file_type file +:+ " not supported"
    ∧ JS.includes msg (file_type file) = true.
Proof.
  intros Htype. rewrite validateFile_errors.
  rewrite (bool_decide_eq_false_2 _ Htype).
  eexists _, _. split; [reflexivity|]. split; [reflexivity|].
  apply includes_append.
Qed.

Lemma validateFile_names_offending_type_witness :
  ∃ msg rest,
    errors (validateFile Sample.formatBytes Sample.report_pdf ["image/png"] 1000)
    = msg :: rest
    ∧ msg = "File type application/pdf not supported"
    ∧ JS.includes msg "application/pdf" = true.
Proof.
  apply (validateFile_names_offending_type Sample.formatBytes Sample.report_pdf
           ["image/png"] 1000).
  intros Hin. apply list_elem_of_singleton in Hin. discriminate Hin.
Defined.

(** ** ProgressTracker *)

(** X10. Every operation of the tracker keeps the values handed to
    callbacks within 0..100, as long as no reported progress is [NaN]: if
    the values fired so far are in range, they are so after [trackProgress],
    after [updateProgress] with any progress other than [NaN] (infinities
    included), after [completeProgress] and after [removeProgress]. A [NaN]
    reported for a registered job reaches the callback and ends that. *)
Theorem tracker_fired_values_stay_in_range {Callback : Type}
    (st : ProgressTracker.t Callback) (jobId : string)
    (callback : Callback) (p : JS.number) :
  fired_in_range st →
  fired_in_range (ProgressTracker.trackProgress jobId callback st)
  ∧ (p ≠ JS.NaN → fired_in_range (ProgressTracker.updateProgress jobId p st))
  ∧ fired_in_range (ProgressTracker.completeProgress jobId st)
  ∧ fired_in_range (ProgressTracker.removeProgress jobId st)
  ∧ (ProgressTracker.progressCallbacks st !! jobId ≠ None →
     ¬ fired_in_range (ProgressTracker.updateProgress jobId JS.NaN st)).
Proof.
  unfold fired_in_range. intros Hst.
  assert (∀ q, q ≠ JS.NaN →
               Forall (λ entry : Callback * JS.number, in_percent_range entry.2)
                 (ProgressTracker.fired (ProgressTracker.updateProgress jobId q st)))
    as Hupd.
  { intros q Hq. unfold ProgressTracker.updateProgress.
    destruct (ProgressTracker.progressCallbacks st !! jobId); [|done].
    cbn [ProgressTracker.fired]. apply Forall_app. split; [done|].
    apply Forall_singleton. by apply clamp_range. }
  split; [done|]. split; [apply Hupd|]. split; [|split; [done|]].
  - unfold ProgressTracker.completeProgress, ProgressTracker.removeProgress.
    cbn [ProgressTracker.fired]. by apply Hupd.
  - intros Hregistered Hrange. unfold ProgressTracker.updateProgress in Hrange.
    destruct (ProgressTracker.progressCallbacks st !! jobId) as [registered|];
      [|done].
    cbn [ProgressTracker.fired] in Hrange.
    apply Forall_app in Hrange as [_ Hlast].
    rewrite Forall_singleton in Hlast. exact Hlast.
Qed.

Lemma tracker_fired_values_stay_in_range_witness :
  fired_in_range
    (ProgressTracker.updateProgress "job-1" (JS.finite 250)
       {| ProgressTracker.progressCallbacks := {[ "job-1" := 7%nat ]};
          ProgressTracker.fired := [] |})
  ∧ ¬ fired_in_range
        (ProgressTracker.updateProgress "job-1" JS.NaN
           {| ProgressTracker.progressCallbacks := {[ "job-1" := 7%nat ]};
              ProgressTracker.fired := [] |}).
Proof.
  destruct (tracker_fired_values_stay_in_range
              {| ProgressTracker.progressCallbacks := {[ "job-1" := 7%nat ]};
                 ProgressTracker.fired := [] |} "job-1" 7%nat (JS.finite 250))
    as (_ & Hfinite & _ & _ & Hnan); [apply Forall_nil_2|].
  split; [apply Hfinite; discriminate|apply Hnan; discriminate].
Defined.

(** X11. Life cycle of a registration: completing a job right after it was
    registered fires its callback once with 100 and leaves the job
    unregistered; after [completeProgress] or [removeProgress] a further
    [updateProgress] for the job does nothing; registering a second callback
    for a job replaces the first. *)
Theorem tracker_registration_life_cycle {Callback : Type}
    (st : ProgressTracker.t Callback) (jobId : string)
    (callback callback' : Callback) (p : JS.number) :
  ProgressTracker.completeProgress jobId
    (ProgressTracker.trackProgress jobId callback st)
  = {| ProgressTracker.progressCallbacks :=
         delete jobId (ProgressTracker.progressCallbacks st);
       ProgressTracker.fired :=
         ProgressTracker.fired st ++ [(callback, JS.finite 100)] |}
  ∧ ProgressTracker.updateProgress jobId p (ProgressTracker.completeProgress jobId st)
    = ProgressTracker.completeProgress jobId st
  ∧ ProgressTracker.updateProgress jobId p (ProgressTracker.removeProgress jobId st)
    = ProgressTracker.removeProgress jobId st
  ∧ ProgressTracker.trackProgress jobId callback'
      (ProgressTracker.trackProgress jobId callback st)
    = ProgressTracker.trackProgress jobId callback' st.
Proof.
  split; [|split; [|split]].
  - unfold ProgressTracker.completeProgress, ProgressTracker.updateProgress,
      ProgressTracker.trackProgress, ProgressTracker.removeProgress.
    cbn [ProgressTracker.progressCallbacks ProgressTracker.fired].
    rewrite lookup_insert_eq.
    cbn [ProgressTracker.progressCallbacks ProgressTracker.fired].
    by rewrite delete_insert_eq.
  - unfold ProgressTracker.updateProgress at 1.
    unfold ProgressTracker.completeProgress, ProgressTracker.removeProgress.
    cbn [ProgressTracker.progressCallbacks]. by rewrite lookup_delete_eq.
  - unfold ProgressTracker.updateProgress, ProgressTracker.removeProgress.
    cbn [ProgressTracker.progressCallbacks]. by rewrite lookup_delete_eq.
  - unfold ProgressTracker.trackProgress.
    cbn [ProgressTracker.progressCallbacks ProgressTracker.fired].
    by rewrite insert_insert_eq.
Qed.

(** X12. An operation on one job id leaves the registration of every other
    job id as it was. *)
Theorem tracker_other_jobs_untouched {Callback : Type}
    (st : ProgressTracker.t Callback) (jobId other : string)
    (callback : Callback) (p : JS.number) :
  other ≠ jobId →
  ProgressTracker.progressCallbacks
    (ProgressTracker.trackProgress jobId callback st) !! other
  = ProgressTracker.progressCallbacks st !! other
  ∧ ProgressTracker.progressCallbacks
      (ProgressTracker.updateProgress jobId p st) !! other
    = ProgressTracker.progressCallbacks st !! other
  ∧ ProgressTracker.progressCallbacks
      (ProgressTracker.completeProgress jobId st) !! other
    = ProgressTracker.progressCallbacks st !! other
  ∧ ProgressTracker.progressCallbacks
      (ProgressTracker.removeProgress jobId st) !! other
    = ProgressTracker.progressCallbacks st !! other.
Proof.
  intros Hne.
  assert (ProgressTracker.progressCallbacks
            (ProgressTracker.updateProgress jobId p st)
          = ProgressTracker.progressCallbacks st) as Hupd.
  { unfold ProgressTracker.updateProgress.
    by destruct (ProgressTracker.progressCallbacks st !! jobId). }
  assert (ProgressTracker.progressCallbacks
            (ProgressTracker.updateProgress jobId (JS.finite 100) st)
          = ProgressTracker.progressCallbacks st) as Hupd100.
  { unfold ProgressTracker.updateProgress.
    by destruct (ProgressTracker.progressCallbacks st !! jobId). }
  split; [|split; [|split]].
  - cbn. by rewrite lookup_insert_ne.
  - by rewrite Hupd.
  - unfold ProgressTracker.completeProgress, ProgressTracker.removeProgress.
    cbn [ProgressTracker.progressCallbacks].
    rewrite Hupd100. by rewrite lookup_delete_ne.
  - cbn. by rewrite lookup_delete_ne.
Qed.

Lemma tracker_other_jobs_untouched_witness :
  ProgressTracker.progressCallbacks
    (ProgressTracker.completeProgress "job-1"
       {| ProgressTracker.progressCallbacks := {[ "job-1" := 7%nat; "job-2" := 8%nat ]};
          ProgressTracker.fired := [] |}) !! "job-2"
  = Some 8%nat.
Proof.
  destruct (tracker_other_jobs_untouched
              {| ProgressTracker.progressCallbacks :=
                   {[ "job-1" := 7%nat; "job-2" := 8%nat ]};
                 ProgressTracker.fired := [] |} "job-1" "job-2" 7%nat (JS.finite 0))
    as (_ & _ & Hcomplete & _); [discriminate|].
  rewrite Hcomplete. reflexivity.
Defined.

(** ** ErrorHandler *)

(** X13. Whatever error it is given, [handleProcessingError] returns one of
    six fixed user-facing texts (never the text of the error itself), keeps
    the given context, uses an id of at most nine code units as the code, and
    marks the error non-recoverable exactly when its name is
    QuotaExceededError, SecurityError or NotSupportedError. *)
Theorem handleProcessingError_shape
    (random36 : string) (error : Thrown) (context0 : string) :
  message (ErrorHandler.handleProcessingError random36 error context0)
    ∈ friendlyMessages
  ∧ context (ErrorHandler.handleProcessingError random36 error context0)
    = Some context0
  ∧ (String.length
       (code (ErrorHandler.handleProcessingError random36 error context0)) ≤ 9)%nat
  ∧ (recoverable (ErrorHandler.handleProcessingError random36 error context0) = false
     ↔ error_name error ∈ ErrorHandler.nonRecoverableErrors).
Proof.
  split; [|split; [reflexivity|split]].
  - cbn [message ErrorHandler.handleProcessingError].
    unfold ErrorHandler.getUserFriendlyMessage, friendlyMessages.
    repeat match goal with
           | |- context [if ?b then _ else _] => destruct b
           end;
      repeat first [apply list_elem_of_here | apply list_elem_of_further].
  - apply substr_length.
  - cbn [recoverable ErrorHandler.handleProcessingError].
    unfold ErrorHandler.isRecoverable.
    rewrite negb_false_iff. apply bool_decide_eq_true.
Qed.

(** ** FileProcessor: what a call can and cannot do *)

Section ProcessorMore.

Import FileProcessor.

Context {Callback : Type}.
Variable formatBytes : Z → string.
Variable vendor : Vendor.
Variable random36 : nat → string.

(** *** A small logic of frames and results *)

Lemma keeps_ret_any {A X} (proj : World Callback → X) (a : A) : keeps proj (ret a).
Proof. by intros w. Qed.

Lemma keeps_throw_any {A X} (proj : World Callback → X) error :
  keeps (A := A) proj (throw error).
Proof. by intros w. Qed.

Lemma keeps_await_any {A X} (proj : World Callback → X) (outcome : JsError + A) :
  keeps proj (await outcome).
Proof. destruct outcome; by intros w. Qed.

Lemma keeps_await_own_any {A X} (proj : World Callback → X)
    (outcome : Thrown + A) :
  keeps proj (await_own outcome).
Proof. destruct outcome; by intros w. Qed.

Lemma keeps_bind_any {A B X} (proj : World Callback → X)
    (m : M Callback A) (k : A → M Callback B) :
  keeps proj m → (∀ a, keeps proj (k a)) → keeps proj (bind m k).
Proof.
  intros Hm Hk w. unfold bind. specialize (Hm w).
  destruct (m w) as [[error|a] w']; cbn [snd] in *; [done|].
  rewrite <- Hm. apply Hk.
Qed.

Lemma keeps_draws_on_tracker f : keeps (Callback := Callback) draws (on_tracker f).
Proof. by intros w. Qed.

Lemma keeps_routines_on_tracker f :
  keeps (Callback := Callback) routines (on_tracker f).
Proof. by intros w. Qed.

Lemma keeps_draws_enter call : keeps (Callback := Callback) draws (enter call).
Proof. by intros w. Qed.

Ltac frame_step :=
  first
    [ apply keeps_ret_any | apply keeps_throw_any | apply keeps_await_any
    | apply keeps_await_own_any | apply keeps_draws_on_tracker | apply keeps_routines_on_tracker
    | apply keeps_draws_enter
    | apply keeps_bind_any; [|intros ?]
    | match goal with
      | |- keeps _ (if ?b then _ else _) => destruct b
      | |- keeps _ (match ?x with _ => _ end) => destruct x
      end ].

Ltac frame :=
  unfold updateProgress, completeProgress, removeProgress; repeat frame_step.

Lemma keeps_any_extractText {X} (proj : World Callback → X)
    jobId totalPages remaining :
  (∀ f, keeps proj (on_tracker f)) →
  ∀ i fullText, keeps proj (extractText jobId totalPages i remaining fullText).
Proof.
  intros Htracker.
  induction remaining as [|page later IH]; intros i fullText;
    cbn [extractText]; frame; first [apply Htracker | apply IH].
Qed.

Lemma keeps_any_mergeLoop {X} (proj : World Callback → X)
    jobId totalFiles remaining :
  (∀ f, keeps proj (on_tracker f)) →
  ∀ i mergedPdf, keeps proj (mergeLoop vendor jobId totalFiles i remaining mergedPdf).
Proof.
  intros Htracker.
  induction remaining as [|file later IH]; intros i mergedPdf;
    cbn [mergeLoop]; frame; first [apply Htracker | apply IH].
Qed.

Lemma keeps_draws_processFileByTool file toolId options jobId :
  keeps (Callback := Callback) draws
    (processFileByTool vendor file toolId options jobId).
Proof.
  unfold processFileByTool, processPDFToWord, mergePDFs, compressPDF,
    resizeImage, compressImage.
  frame;
    first [ apply keeps_any_extractText; apply keeps_draws_on_tracker
          | apply keeps_any_mergeLoop; apply keeps_draws_on_tracker ].
Qed.

Lemma keeps_draws_processFile_try file toolId options jobId :
  keeps (Callback := Callback) draws
    (processFile_try formatBytes vendor file toolId options jobId).
Proof.
  unfold processFile_try. frame. apply keeps_draws_processFileByTool.
Qed.

Lemma enter_then {A} call (k : unit → M Callback A) (w : World Callback) :
  keeps routines (k tt) →
  routines (bind (enter call) k w).2 = routines w ++ [call].
Proof.
  intros Hk. unfold bind, enter. cbn [fst snd]. by rewrite Hk.
Qed.

(** The dispatcher either refuses the tool id at once, or enters exactly one
    routine. *)
Lemma processFileByTool_cases file toolId options jobId (w : World Callback) :
  ((toolId ∉ dispatchedTools)
   ∧ processFileByTool vendor file toolId options jobId w
     = (inl (tool_not_found toolId), w))
  ∨ ((toolId ∈ dispatchedTools)
     ∧ ∃ call,
         routines (processFileByTool vendor file toolId options jobId w).2
         = routines w ++ [call]).
Proof.
  destruct (decide (toolId ∈ dispatchedTools)) as [Hin|Hnot].
  - right. split; [done|]. unfold dispatchedTools in Hin.
    unfold processFileByTool, processPDFToWord, mergePDFs, compressPDF,
      resizeImage, compressImage.
    repeat (apply elem_of_cons in Hin as [->|Hin];
            [cbn [String.eqb Ascii.eqb Bool.eqb andb]; eexists;
             apply enter_then; frame;
             first [ apply keeps_any_extractText; apply keeps_routines_on_tracker
                   | apply keeps_any_mergeLoop; apply keeps_routines_on_tracker ]|]).
    by apply elem_of_nil in Hin.
  - left. split; [done|]. by apply processFileByTool_unknown.
Qed.

Lemma returns_ret {A} (Q : A → Prop) (a : A) :
  Q a → returns (Callback := Callback) Q (ret a).
Proof. intros Ha w a' w' [= <- _]. exact Ha. Qed.

Lemma returns_throw {A} (Q : A → Prop) error :
  returns (Callback := Callback) Q (throw error).
Proof. intros w a w' H. discriminate H. Qed.

Lemma returns_bind {A B} (Q : B → Prop) (m : M Callback A) (k : A → M Callback B) :
  (∀ a, returns Q (k a)) → returns Q (bind m k).
Proof.
  intros Hk w b w'. unfold bind.
  destruct (m w) as [[error|a] w1]; [discriminate|]. apply Hk.
Qed.

Ltac result_step :=
  first
    [ apply returns_throw
    | apply returns_bind; intros ?
    | match goal with
      | |- returns _ (if ?b then _ else _) => destruct b
      | |- returns _ (match ?x with _ => _ end) => destruct x
      end ].

(** Every routine tags its output with the type of its tool and sets [size]
    to the length of the buffer. *)
Lemma returns_processFileByTool file toolId options jobId :
  returns (Callback := Callback)
    (λ r, size r = Z.of_nat (length (buffer r))
          ∧ (toolId, mimeType r) ∈ outputTypes)
    (processFileByTool vendor file toolId options jobId).
Proof.
  unfold processFileByTool.
  repeat match goal with
         | |- returns _ (if String.eqb toolId ?t then _ else _) =>
             destruct (String.eqb_spec toolId t) as [->|_]
         end;
    [unfold processPDFToWord|unfold mergePDFs|unfold compressPDF
    |unfold resizeImage|unfold compressImage|apply returns_throw];
    repeat result_step; apply returns_ret; split; try reflexivity;
    unfold outputTypes;
    repeat first [apply list_elem_of_here | apply list_elem_of_further].
Qed.

(** A call that returns went through validation and then through the
    dispatcher. *)
Lemma processFile_success_inv file toolId options (w : World Callback) r w' :
  processFile formatBytes vendor random36 file toolId options w = (inr r, w') →
  (∃ validation,
     validateFileForTool formatBytes file toolId = inr validation
     ∧ isValid validation = true)
  ∧ ∃ w1 w2 : World Callback,
      draws w1 = S (draws w) ∧ routines w1 = routines w
      ∧ processFileByTool vendor file toolId options (jobId_of random36 w) w1
        = (inr r, w2)
      ∧ draws w' = draws w2 ∧ routines w' = routines w2.
Proof.
  rewrite processFile_unfold. unfold try_catch.
  destruct (processFile_try_cases formatBytes vendor file toolId options
              (jobId_of random36 w) (after_draw w))
    as [(error & _ & ->)
       |[(validation & _ & _ & ->)|(validation & Hvalidation & Hvalid & ->)]];
    [discriminate|discriminate|].
  unfold bind at 1. cbn [updateProgress on_tracker]. unfold bind at 1.
  match goal with
  | |- context [processFileByTool vendor file toolId options ?j ?w0] =>
      set (w1 := w0);
      destruct (processFileByTool vendor file toolId options j w1)
        as [[caught|r0] w2] eqn:Hrun
  end; [discriminate|].
  unfold bind, completeProgress, on_tracker, ret. intros [= <- <-].
  split; [by exists validation|]. exists w1, w2. by repeat split.
Qed.

(** A call that fails went through the [catch] clause, which drew the error
    id right after whatever the [try] block did. *)
Lemma processFile_failure_inv file toolId options (w : World Callback) error w' :
  processFile formatBytes vendor random36 file toolId options w = (inl error, w') →
  ∃ caught (w2 : World Callback),
    processFile_try formatBytes vendor file toolId options (jobId_of random36 w)
      (after_draw w) = (inl caught, w2)
    ∧ error = Processing (ErrorHandler.handleProcessingError
                            (random36 (S (draws w))) caught ("tool_" +:+ toolId))
    ∧ draws w' = S (S (draws w)) ∧ routines w' = routines w2.
Proof.
  rewrite processFile_unfold. unfold try_catch.
  pose proof (keeps_draws_processFile_try file toolId options
                (jobId_of random36 w) (after_draw w)) as Hdraws.
  destruct (processFile_try _ _ _ _ _ _ _) as [[caught|r] w2]; [|discriminate].
  cbn [snd after_draw draws] in Hdraws.
  rewrite processFile_catch_eq, Hdraws. intros [= <- <-].
  exists caught, w2. by repeat split.
Qed.

(** X14. Whatever goes wrong, the caller of [processFile] sees an error
    built by the error handler: one of the six fixed texts, the context
    [tool_<toolId>], the error id of the second random draw as code; a failing
    call makes exactly two random draws. *)
Theorem processFile_failure_is_wrapped
    file toolId options (w : World Callback) error w' :
  processFile formatBytes vendor random36 file toolId options w = (inl error, w') →
  ∃ e, error = Processing e
       ∧ message e ∈ friendlyMessages
       ∧ context e = Some ("tool_" +:+ toolId)
       ∧ code e = ErrorHandler.generateErrorId (random36 (S (draws w)))
       ∧ draws w' = S (S (draws w)).
Proof.
  intros Hfail.
  apply processFile_failure_inv in Hfail as (caught & w2 & _ & -> & Hdraws & _).
  eexists. split; [reflexivity|]. split; [|by repeat split].
  cbn [message ErrorHandler.handleProcessingError].
  unfold ErrorHandler.getUserFriendlyMessage, friendlyMessages.
  repeat match goal with
         | |- context [if ?b then _ else _] => destruct b
         end;
    repeat first [apply list_elem_of_here | apply list_elem_of_further].
Qed.

(** X15. A call that returns a file has passed both checks (content
    signature, declared type in the tool's allow-list, size within the
    tool's cap), was for one of the five dispatched tools, entered exactly
    one routine and made exactly one random draw. *)
Theorem processFile_success_was_validated_and_dispatched
    file toolId options (w : World Callback) r w' :
  processFile formatBytes vendor random36 file toolId options w = (inr r, w') →
  SecurityValidator.validateFileContent file = true
  ∧ (∃ c, getToolConfig toolId = config c
          ∧ file_type file ∈ allowedTypes c
          ∧ file_size file ≤ maxSize c)
  ∧ toolId ∈ dispatchedTools
  ∧ (∃ call, routines w' = routines w ++ [call])
  ∧ draws w' = S (draws w).
Proof.
  intros Hok.
  apply processFile_success_inv in Hok
    as ((validation & Hvalidation & Hvalid) & w1 & w2 & Hd1 & Hr1 & Hrun & Hd2 & Hr2).
  unfold validateFileForTool in Hvalidation.
  destruct (SecurityValidator.validateFileContent file);
    cbn [negb] in Hvalidation;
    [|injection Hvalidation as <-; discriminate Hvalid].
  destruct (getToolConfig toolId) as [c|]; [|discriminate Hvalidation].
  injection Hvalidation as <-.
  rewrite isValid_validateFile, bool_decide_eq_true, validateFile_errors in Hvalid.
  split; [reflexivity|].
  destruct (bool_decide (file_type file ∈ _)) eqn:Htype; [|discriminate Hvalid].
  apply bool_decide_eq_true in Htype.
  destruct (_ <? file_size file) eqn:Hsize; [discriminate Hvalid|].
  apply Z.ltb_ge in Hsize.
  split; [exists c; by repeat split|].
  pose proof (keeps_draws_processFileByTool file toolId options
                (jobId_of random36 w) w1) as Hdraws.
  destruct (processFileByTool_cases file toolId options (jobId_of random36 w) w1)
    as [[_ Hrefused]|[Hin [call Hcall]]].
  - rewrite Hrefused in Hrun. discriminate Hrun.
  - rewrite Hrun in Hcall, Hdraws. cbn [snd] in Hcall, Hdraws.
    split; [exact Hin|]. split; [|lia].
    exists call. by rewrite Hr2, Hcall, Hr1.
Qed.

(** X16. The file returned by a successful call has [size] equal to the
    length of its buffer and carries the MIME type of its tool: HTML for
    pdf-to-word, PDF for merge-pdf and compress-pdf, PNG for image-resize,
    JPEG for image-compress. *)
Theorem processFile_output_is_consistent
    file toolId options (w : World Callback) r w' :
  processFile formatBytes vendor random36 file toolId options w = (inr r, w') →
  size r = Z.of_nat (length (buffer r))
  ∧ (toolId, mimeType r) ∈ outputTypes.
Proof.
  intros Hok.
  apply processFile_success_inv in Hok as (_ & w1 & w2 & _ & _ & Hrun & _).
  exact (returns_processFileByTool _ _ _ _ _ _ _ Hrun).
Qed.

(** X17. A failure is reported as non-recoverable only after a tool routine
    was entered: neither a validation failure nor an unknown tool id is ever
    marked non-recoverable. *)
Theorem non_recoverable_only_from_a_routine
    file toolId options (w : World Callback) e w' :
  processFile formatBytes vendor random36 file toolId options w
  = (inl (Processing e), w') →
  recoverable e = false →
  ∃ call, routines w' = routines w ++ [call].
Proof.
  intros Hfail Hrec.
  apply processFile_failure_inv in Hfail as (caught & w2 & Htry & [= ->] & _ & Hr).
  cbn [recoverable ErrorHandler.handleProcessingError] in Hrec.
  destruct (processFile_try_cases formatBytes vendor file toolId options
              (jobId_of random36 w) (after_draw w))
    as [(error & Hrejected & Heq)
       |[(validation & _ & _ & Heq)|(validation & _ & _ & Heq)]];
    rewrite Heq in Htry.
  { injection Htry as <- _.
    by apply validateFileForTool_rejection in Hrejected as (-> & _ & _). }
  { by injection Htry as <- _. }
  unfold bind at 1 in Htry. cbn [updateProgress on_tracker] in Htry.
  unfold bind at 1 in Htry.
  match type of Htry with
  | context [processFileByTool vendor file toolId options ?j ?w0] =>
      destruct (processFileByTool_cases file toolId options j w0)
        as [[_ Hrefused]|[_ [call Hcall]]];
      [rewrite Hrefused in Htry; by injection Htry as <- _|];
      destruct (processFileByTool vendor file toolId options j w0)
        as [[caught'|r] w3] eqn:Hrun
  end.
  - injection Htry as <- <-. cbn [snd] in Hcall. exists call. by rewrite Hr.
  - discriminate Htry.
Qed.

(** *** Names of the outputs *)

Lemma has_dot_middle (stem ext : string) : JS.has_dot (stem +:+ "." +:+ ext) = true.
Proof.
  induction stem as [|c stem IH]; [reflexivity|].
  change (String c stem +:+ "." +:+ ext) with (String c (stem +:+ "." +:+ ext)).
  cbn [JS.has_dot]. rewrite IH. apply orb_true_r.
Qed.

Lemma replace_extension_last (stem ext by_ : string) :
  ext ≠ EmptyString → JS.has_dot ext = false →
  JS.replace_extension (stem +:+ "." +:+ ext) by_ = stem +:+ by_.
Proof.
  intros Hne Hext. induction stem as [|c stem IH].
  - change (EmptyString +:+ "." +:+ ext) with (String "." ext).
    cbn [JS.replace_extension]. rewrite Hext.
    destruct ext; [done|]. reflexivity.
  - change (String c stem +:+ "." +:+ ext) with (String c (stem +:+ "." +:+ ext)).
    cbn [JS.replace_extension]. rewrite has_dot_middle, IH.
    by rewrite andb_false_r.
Qed.

Lemma replace_extension_none (name by_ : string) :
  JS.has_dot name = false → JS.replace_extension name by_ = name.
Proof.
  induction name as [|c name IH]; [reflexivity|].
  cbn [JS.has_dot JS.replace_extension]. intros Hdot.
  apply orb_false_iff in Hdot as [Hc Hrest]. by rewrite Hc, (IH Hrest).
Qed.

Lemma substring_all (s : string) (n : nat) :
  (String.length s ≤ n)%nat → String.substring 0 n s = s.
Proof.
  revert n. induction s as [|c s IH]; intros n Hn; [by destruct n|].
  destruct n as [|n]; cbn in *; [lia|]. rewrite IH; [done|lia].
Qed.

Lemma substring_skip (pre s : string) (n : nat) :
  String.substring (String.length pre) n (pre +:+ s) = String.substring 0 n s.
Proof. induction pre as [|c pre IH]; [reflexivity|]. exact IH. Qed.

Lemma append_cons (c : ascii) (s t : string) :
  String c s +:+ t = String c (s +:+ t).
Proof. reflexivity. Qed.

Lemma append_nil_l (s : string) : EmptyString +:+ s = s.
Proof. reflexivity. Qed.

Lemma prefix_cons_cons (a b : ascii) (s t : string) :
  String.prefix (String a s) (String b t)
  = if ascii_dec a b then String.prefix s t else false.
Proof. reflexivity. Qed.

Lemma prefix_empty (s : string) : String.prefix EmptyString s = true.
Proof. by destruct s. Qed.

Lemma prefix_pdf_window (x rest : string) :
  x ≠ EmptyString →
  String.prefix ".pdf" (x +:+ ".pdf" +:+ rest) = String.prefix ".pdf" (x +:+ ".pd").
Proof.
  intros Hx.
  destruct x as [|c1 [|c2 [|c3 [|c4 x]]]]; [done|..];
    repeat (rewrite append_cons || rewrite append_nil_l);
    rewrite !prefix_cons_cons;
    repeat match goal with
           | |- context [ascii_dec ?a ?b] => destruct (ascii_dec a b)
           end;
    try discriminate; rewrite ?prefix_empty; reflexivity.
Qed.

Lemma replace_first_unfold (s pat by_ : string) :
  JS.replace_first s pat by_
  = if String.prefix pat s
    then by_ +:+ String.substring (String.length pat) (String.length s) s
    else match s with
         | EmptyString => EmptyString
         | String c s' => String c (JS.replace_first s' pat by_)
         end.
Proof. by destruct s. Qed.

Lemma append_length (s t : string) :
  String.length (s +:+ t) = (String.length s + String.length t)%nat.
Proof.
  induction s as [|c s IH]; [reflexivity|].
  rewrite append_cons. cbn [String.length]. by rewrite IH.
Qed.

Lemma replace_first_pdf (stem rest by_ : string) :
  JS.includes (stem +:+ ".pd") ".pdf" = false →
  JS.replace_first (stem +:+ ".pdf" +:+ rest) ".pdf" by_ = stem +:+ by_ +:+ rest.
Proof.
  induction stem as [|c stem IH]; intros Hno.
  - rewrite !append_nil_l, replace_first_unfold, prefix_append.
    rewrite substring_skip, substring_all; [done|].
    rewrite append_length. lia.
  - rewrite append_cons in Hno. cbn [JS.includes] in Hno.
    destruct (String.prefix ".pdf" (String c (stem +:+ ".pd"))) eqn:Hp;
      [discriminate Hno|].
    rewrite <- append_cons in Hp.
    rewrite <- (prefix_pdf_window (String c stem) rest) in Hp by done.
    rewrite replace_first_unfold, Hp, !(append_cons c stem). cbv beta iota.
    by rewrite (IH Hno).
Qed.

Lemma replace_first_absent (name pat by_ : string) :
  JS.includes name pat = false → JS.replace_first name pat by_ = name.
Proof.
  induction name as [|c name IH]; cbn [JS.includes JS.replace_first];
    destruct (String.prefix pat _); try discriminate; [done|].
  intros Hno. by rewrite (IH Hno).
Qed.

Lemma returns_image_name file toolId suffix options jobId :
  (toolId, suffix) ∈ imageSuffixes →
  returns (Callback := Callback)
    (λ r, fileName r = JS.replace_extension (file_name file) suffix)
    (processFileByTool vendor file toolId options jobId).
Proof.
  unfold imageSuffixes. intros Hin.
  repeat (apply elem_of_cons in Hin as [[= -> ->]|Hin];
          [unfold processFileByTool, resizeImage, compressImage;
           cbn [String.eqb Ascii.eqb Bool.eqb andb];
           repeat result_step; by apply returns_ret|]).
  by apply elem_of_nil in Hin.
Qed.

Lemma returns_pdf_name file toolId suffix options jobId :
  (toolId, suffix) ∈ pdfSuffixes →
  returns (Callback := Callback)
    (λ r, fileName r = JS.replace_first (file_name file) ".pdf" suffix)
    (processFileByTool vendor file toolId options jobId).
Proof.
  unfold pdfSuffixes. intros Hin.
  repeat (apply elem_of_cons in Hin as [[= -> ->]|Hin];
          [unfold processFileByTool, processPDFToWord, compressPDF;
           cbn [String.eqb Ascii.eqb Bool.eqb andb];
           repeat result_step; by apply returns_ret|]).
  by apply elem_of_nil in Hin.
Qed.

(** X19. Output names of the image tools: the last extension of the input
    name is replaced by [_resized.png] (resize) or [_compressed.jpg]
    (compress); an input name without any dot is returned as it is, so the
    output then carries no extension at all. *)
Theorem image_output_name
    file toolId suffix options (w : World Callback) r w' :
  (toolId, suffix) ∈ imageSuffixes →
  processFile formatBytes vendor random36 file toolId options w = (inr r, w') →
  (∀ stem ext, file_name file = stem +:+ "." +:+ ext →
               ext ≠ EmptyString → JS.has_dot ext = false →
               fileName r = stem +:+ suffix)
  ∧ (JS.has_dot (file_name file) = false → fileName r = file_name file).
Proof.
  intros Htool Hok.
  apply processFile_success_inv in Hok as (_ & w1 & w2 & _ & _ & Hrun & _).
  pose proof (returns_image_name _ _ _ _ _ Htool _ _ _ Hrun) as Hname.
  cbn beta in Hname. rewrite Hname. split.
  - intros stem ext -> Hne Hext. by apply replace_extension_last.
  - apply replace_extension_none.
Qed.

(** X20. Output names of the PDF tools: the first [.pdf] of the input name
    is replaced by [_compressed.pdf] (compress-pdf) or [.html] (pdf-to-word),
    whatever follows it; the match is case-sensitive, so a name that does not
    contain [.pdf] in lower case is returned as it is. *)
Theorem pdf_output_name
    file toolId suffix options (w : World Callback) r w' :
  (toolId, suffix) ∈ pdfSuffixes →
  processFile formatBytes vendor random36 file toolId options w = (inr r, w') →
  (∀ stem rest, file_name file = stem +:+ ".pdf" +:+ rest →
                JS.includes (stem +:+ ".pd") ".pdf" = false →
                fileName r = stem +:+ suffix +:+ rest)
  ∧ (JS.includes (file_name file) ".pdf" = false → fileName r = file_name file).
Proof.
  intros Htool Hok.
  apply processFile_success_inv in Hok as (_ & w1 & w2 & _ & _ & Hrun & _).
  pose proof (returns_pdf_name _ _ _ _ _ Htool _ _ _ Hrun) as Hname.
  cbn beta in Hname. rewrite Hname. split.
  - intros stem rest -> Hfirst. by apply replace_first_pdf.
  - apply replace_first_absent.
Qed.

(** *** A valid PDF is compressed *)

Lemma validateFile_accepts file types cap :
  file_type file ∈ types → file_size file ≤ cap →
  (String.length (file_name file) ≤ 255)%nat →
  dangerous_name (file_name file) = false →
  isValid (validateFile formatBytes file types cap) = true.
Proof.
  intros Htype Hsize Hname Hsafe.
  rewrite isValid_validateFile, validateFile_errors, Hsafe.
  rewrite (bool_decide_eq_true_2 _ Htype).
  rewrite (proj2 (Z.ltb_ge _ _) Hsize).
  rewrite (proj2 (Z.ltb_ge 255 (Z.of_nat (String.length (file_name file)))));
    [reflexivity|lia].
Qed.

(** X18. A PDF that starts with [%PDF], is declared as [application/pdf],
    is at most 100MB, and has a name of at most 255 code units without a
    dangerous extension is always compressed when the three vendor calls
    succeed: [processFile] returns the saved bytes, tagged as a PDF. *)
Theorem compress_pdf_succeeds
    file options (w : World Callback) (head buf : list Z)
    (pdf : list (Page vendor)) (bytes : list Z) :
  file_type file = "application/pdf" →
  file_head file = Some head →
  [0x25; 0x50; 0x44; 0x46] `prefix_of` head →
  file_size file ≤ 100 * 1024 * 1024 →
  (String.length (file_name file) ≤ 255)%nat →
  ¬ has_dangerous_extension (file_name file) →
  arrayBuffer vendor file = inr buf →
  pdflib_load vendor buf = inr pdf →
  pdflib_save_compact vendor pdf = inr bytes →
  (processFile formatBytes vendor random36 file "compress-pdf" options w).1
  = inr {| buffer := bytes;
           fileName := JS.replace_first (file_name file) ".pdf" "_compressed.pdf";
           mimeType := "application/pdf";
           size := Z.of_nat (length bytes) |}.
Proof.
  intros Htype Hhead Hmagic Hsize Hname Hsafe Hbuf Hload Hsave.
  assert (∃ validation,
            validateFileForTool formatBytes file "compress-pdf" = inr validation
            ∧ isValid validation = true)
    as (validation & Hvalidation & Hvalid).
  { unfold validateFileForTool.
    assert (SecurityValidator.validateFileContent file = true) as ->.
    { unfold SecurityValidator.validateFileContent. rewrite Hhead.
      apply checkMagicNumbers_prefix_take. rewrite Htype.
      intros signature [= <-]. exact Hmagic. }
    cbn [negb].
    assert (getToolConfig "compress-pdf"
            = config {| allowedTypes := ["application/pdf"];
                        maxSize := 100 * 1024 * 1024 |}) as -> by reflexivity.
    eexists. split; [reflexivity|].
    apply validateFile_accepts; try done.
    - rewrite Htype. apply list_elem_of_here.
    - destruct (dangerous_name (file_name file)) eqn:Hd; [|done].
      by apply dangerous_name_iff in Hd. }
  rewrite processFile_unfold. unfold try_catch.
  rewrite (processFile_try_valid formatBytes vendor _ _ _ _ _ _ Hvalidation Hvalid).
  change (processFileByTool vendor file "compress-pdf" options)
    with (compressPDF (Callback := Callback) vendor file options).
  unfold compressPDF, bind, enter, updateProgress, completeProgress,
    on_tracker, await, throw, ret.
  rewrite Hbuf, Hload, Hsave. reflexivity.
Qed.

End ProcessorMore.

Lemma processFile_failure_is_wrapped_witness :
  ∃ e,
    Processing
      {| message := "An unexpected error occurred. Please try again.";
         code := "k3v9x01ab"; recoverable := true;
         context := Some "tool_merge-pdf" |} = Processing e
    ∧ message e ∈ friendlyMessages
    ∧ context e = Some "tool_merge-pdf"
    ∧ code e = ErrorHandler.generateErrorId (Sample.random36 1)
    ∧ FileProcessor.draws (SampleMore.after 2 []) = 2%nat.
Proof.
  apply (processFile_failure_is_wrapped (Callback := nat)
           Sample.formatBytes Sample.vendor Sample.random36
           Sample.huge_pdf "merge-pdf" no_options Sample.idle).
  vm_compute. reflexivity.
Defined.

Lemma processFile_success_was_validated_and_dispatched_witness :
  SecurityValidator.validateFileContent Sample.report_pdf = true
  ∧ (∃ c, FileProcessor.getToolConfig "compress-pdf" = config c
          ∧ file_type Sample.report_pdf ∈ allowedTypes c
          ∧ file_size Sample.report_pdf ≤ maxSize c)
  ∧ "compress-pdf" ∈ FileProcessor.dispatchedTools
  ∧ (∃ call,
       FileProcessor.routines
         (SampleMore.after 1
            [compressPDF_called Sample.report_pdf no_options "4fzyo82mv"])
       = FileProcessor.routines (Sample.idle (Callback := nat)) ++ [call])
  ∧ FileProcessor.draws
      (SampleMore.after 1
         [compressPDF_called Sample.report_pdf no_options "4fzyo82mv"]) = 1%nat.
Proof.
  apply (processFile_success_was_validated_and_dispatched (Callback := nat)
           Sample.formatBytes Sample.vendor Sample.random36
           Sample.report_pdf "compress-pdf" no_options Sample.idle
           SampleMore.compressed_report).
  vm_compute. reflexivity.
Defined.

Lemma processFile_output_is_consistent_witness :
  size SampleMore.compressed_report
  = Z.of_nat (length (buffer SampleMore.compressed_report))
  ∧ ("compress-pdf", mimeType SampleMore.compressed_report)
      ∈ FileProcessor.outputTypes.
Proof.
  apply (processFile_output_is_consistent (Callback := nat)
           Sample.formatBytes Sample.vendor Sample.random36
           Sample.report_pdf "compress-pdf" no_options Sample.idle
           SampleMore.compressed_report
           (SampleMore.after 1
              [compressPDF_called Sample.report_pdf no_options "4fzyo82mv"])).
  vm_compute. reflexivity.
Defined.

Lemma non_recoverable_only_from_a_routine_witness :
  ∃ call,
    FileProcessor.routines
      (SampleMore.after 2
         [compressPDF_called Sample.report_pdf no_options "4fzyo82mv"])
    = FileProcessor.routines (Sample.idle (Callback := nat)) ++ [call].
Proof.
  apply (non_recoverable_only_from_a_routine (Callback := nat)
           Sample.formatBytes SampleMore.locked_vendor Sample.random36
           Sample.report_pdf "compress-pdf" no_options Sample.idle
           {| message := "An unexpected error occurred. Please try again.";
              code := "k3v9x01ab"; recoverable := false;
              context := Some "tool_compress-pdf" |}).
  - vm_compute. reflexivity.
  - reflexivity.
Defined.

Lemma compress_pdf_succeeds_witness :
  (Sample.processFile Sample.report_pdf "compress-pdf" no_options Sample.idle).1
  = inr {| buffer := [0x25; 0x50; 0x44; 0x46; 0x2D; 0x31];
           fileName := JS.replace_first "report.pdf" ".pdf" "_compressed.pdf";
           mimeType := "application/pdf";
           size := 6 |}.
Proof.
  apply (compress_pdf_succeeds (Callback := nat)
           Sample.formatBytes Sample.vendor Sample.random36
           Sample.report_pdf no_options Sample.idle
           [0x25; 0x50; 0x44; 0x46; 0x2D; 0x31]
           [0x25; 0x50; 0x44; 0x46; 0x2D; 0x31]
           [[0x25; 0x50; 0x44; 0x46; 0x2D; 0x31]]
           [0x25; 0x50; 0x44; 0x46; 0x2D; 0x31]).
  - reflexivity.
  - reflexivity.
  - by exists [0x2D; 0x31].
  - vm_compute. discriminate.
  - vm_compute. lia.
  - intros Hd. apply dangerous_name_iff in Hd. vm_compute in Hd. discriminate Hd.
  - reflexivity.
  - reflexivity.
  - reflexivity.
Defined.

Lemma image_output_name_witness :
  fileName SampleMore.resized_photo = "photo" +:+ "_resized.png".
Proof.
  destruct (image_output_name (Callback := nat)
              Sample.formatBytes Sample.vendor Sample.random36
              SampleMore.photo_jpg "image-resize" "_resized.png" no_options
              Sample.idle SampleMore.resized_photo
              (SampleMore.after 1
                 [resizeImage_called SampleMore.photo_jpg no_options "4fzyo82mv"]))
    as [Hext _].
  - apply list_elem_of_here.
  - vm_compute. reflexivity.
  - apply (Hext "photo" "jpg"); [reflexivity|discriminate|reflexivity].
Defined.

Lemma pdf_output_name_witness :
  fileName SampleMore.compressed_report = "report" +:+ "_compressed.pdf" +:+ "".
Proof.
  destruct (pdf_output_name (Callback := nat)
              Sample.formatBytes Sample.vendor Sample.random36
              Sample.report_pdf "compress-pdf" "_compressed.pdf" no_options
              Sample.idle SampleMore.compressed_report
              (SampleMore.after 1
                 [compressPDF_called Sample.report_pdf no_options "4fzyo82mv"]))
    as [Hfirst _].
  - apply list_elem_of_here.
  - vm_compute. reflexivity.
  - apply (Hfirst "report" ""); reflexivity.
Defined.

(** ** The tool panel: [parseFileSize] *)

Section ParseFileSize.
Import ToolPanel.

Lemma span_digits_app (digits rest : string) :
  string_forall is_digit digits = true →
  (∀ c rest', rest = String c rest' → is_digit c = false) →
  span_digits (digits +:+ rest) = (digits, rest).
Proof.
  intros Hd Hrest. induction digits as [|c digits IH].
  - rewrite append_nil_l. destruct rest as [|c rest]; [reflexivity|].
    cbn [span_digits]. by rewrite (Hrest c rest).
  - cbn [string_forall] in Hd. apply andb_true_iff in Hd as [Hc Hd].
    rewrite append_cons. cbn [span_digits]. by rewrite Hc, (IH Hd).
Qed.

Lemma skip_spaces_app (blanks rest : string) :
  string_forall is_space blanks = true →
  (∀ c rest', rest = String c rest' → is_space c = false) →
  skip_spaces (blanks +:+ rest) = rest.
Proof.
  intros Hb Hrest. induction blanks as [|c blanks IH].
  - rewrite append_nil_l. destruct rest as [|c rest]; [reflexivity|].
    cbn [skip_spaces]. by rewrite (Hrest c rest).
  - cbn [string_forall] in Hb. apply andb_true_iff in Hb as [Hc Hb].
    rewrite append_cons. cbn [skip_spaces]. by rewrite Hc, (IH Hb).
Qed.

(** A two-letter unit in any mix of cases. *)
Lemma unit_shape (unit : string) (factor : Z) :
  (toUpperCase unit, factor) ∈ units →
  ∃ a b, unit = String a (String b EmptyString)
         ∧ (JS.char_match_i "K" a || JS.char_match_i "M" a || JS.char_match_i "G" a)
           && JS.char_match_i "B" b = true
         ∧ is_digit a = false ∧ is_space a = false
         ∧ (list_to_map units : gmap string Z) !! toUpperCase unit = Some factor.
Proof.
  unfold units. intros Hin.
  destruct unit as [|a [|b [|c unit]]];
    repeat (apply elem_of_cons in Hin as [[= ? ?]|Hin]; try discriminate);
    try (by apply elem_of_nil in Hin);
    exists a, b; (split; [reflexivity|]);
    cbn [toUpperCase];
    repeat match goal with H : JS.canonicalize ?x = _ |- _ => revert H end;
    subst factor;
    destruct a as [[] [] [] [] [] [] [] []]; try discriminate; intros _;
    destruct b as [[] [] [] [] [] [] [] []]; try discriminate; intros _;
    repeat split; reflexivity.
Qed.

Lemma parseFileSize_of_parts (digits blanks unit tail : string) (factor : Z) :
  digits ≠ EmptyString →
  string_forall is_digit digits = true →
  string_forall is_space blanks = true →
  (toUpperCase unit, factor) ∈ units →
  parseFileSize (digits +:+ blanks +:+ unit +:+ tail) = parseInt digits * factor.
Proof.
  intros Hne Hd Hb Hunit.
  destruct (unit_shape _ _ Hunit) as (a & b & -> & Hmatch & Hnd & Hns & Hfactor).
  assert (match_here (digits +:+ blanks +:+ String a (String b "") +:+ tail)
          = Some (digits, String a (String b ""))) as Hhere.
  { unfold match_here. rewrite span_digits_app; [|done|].
    - destruct digits; [done|].
      rewrite skip_spaces_app; [|done|].
      + rewrite !append_cons, append_nil_l. cbn [unit_at]. by rewrite Hmatch.
      + rewrite !append_cons. by intros c rest' [= <- _].
    - destruct blanks as [|c blanks].
      + rewrite append_nil_l, !append_cons. by intros c rest' [= <- _].
      + rewrite append_cons. intros c' rest' [= <- _].
        cbn [string_forall] in Hb. apply andb_true_iff in Hb as [Hc _].
        destruct c as [[] [] [] [] [] [] [] []]; try discriminate; reflexivity. }
  unfold parseFileSize.
  assert (regex_match (digits +:+ blanks +:+ String a (String b "") +:+ tail)
          = Some (digits, String a (String b ""))) as ->.
  { destruct (digits +:+ blanks +:+ String a (String b "") +:+ tail);
      cbn [regex_match]; by rewrite Hhere. }
  by rewrite Hfactor.
Qed.

Lemma parseInt_from_app (acc : Z) (a b : string) :
  parseInt_from acc (a +:+ b) = parseInt_from (parseInt_from acc a) b.
Proof.
  revert acc. induction a as [|c a IH]; intros acc; [reflexivity|].
  rewrite append_cons. cbn [parseInt_from]. apply IH.
Qed.

Lemma pretty_N_char_digit (x : N) :
  (x < 10)%N →
  is_digit (pretty_N_char x) = true ∧ digit_value (pretty_N_char x) = Z.of_N x.
Proof.
  intros Hx.
  assert (x = 0 ∨ x = 1 ∨ x = 2 ∨ x = 3 ∨ x = 4 ∨ x = 5 ∨ x = 6 ∨ x = 7
          ∨ x = 8 ∨ x = 9)%N as Hcases by lia.
  repeat (destruct Hcases as [->|Hcases]; [by split|]). by subst.
Qed.

(** The decimal text of a number: digits only, and [parseInt] reads the
    number back. *)
Lemma pretty_N_go_spec (x : N) :
  ∀ s, ∃ digits,
    pretty_N_go x s = digits +:+ s
    ∧ string_forall is_digit digits = true
    ∧ (∀ acc, parseInt_from acc digits
              = acc * 10 ^ Z.of_nat (String.length digits) + Z.of_N x)
    ∧ ((0 < x)%N → digits ≠ EmptyString).
Proof.
  induction (N.lt_wf_0 x) as [x _ IH]. intros s.
  destruct (decide (x = 0)%N) as [->|Hpos].
  - exists EmptyString. rewrite pretty_N_go_0.
    repeat split; try done; intros; cbn; lia.
  - rewrite pretty_N_go_step by lia.
    destruct (IH (x `div` 10)%N (N.div_lt x 10 ltac:(lia) eq_refl)
                (String (pretty_N_char (x `mod` 10)) s))
      as (digits & Heq & Hall & Hparse & _).
    destruct (pretty_N_char_digit (x `mod` 10)%N) as [Hdig Hval].
    { apply N.mod_lt. lia. }
    exists (digits +:+ String (pretty_N_char (x `mod` 10)) EmptyString).
    split; [|split; [|split]].
    + rewrite Heq. clear. induction digits as [|c digits IHd]; [reflexivity|].
      rewrite !append_cons. by rewrite IHd.
    + clear -Hall Hdig. induction digits as [|c digits IHd].
      * rewrite append_nil_l. cbn [string_forall]. by rewrite Hdig.
      * cbn [string_forall] in Hall. apply andb_true_iff in Hall as [Hc Hall].
        rewrite append_cons. cbn [string_forall]. by rewrite Hc, (IHd Hall).
    + intros acc. rewrite parseInt_from_app, Hparse. cbn [parseInt_from].
      rewrite Hval, append_length. cbn [String.length].
      rewrite Nat2Z.inj_add, Z.pow_add_r by lia.
      pose proof (N.div_mod x 10 ltac:(lia)) as Hdm.
      assert (Z.of_N x = 10 * Z.of_N (x `div` 10) + Z.of_N (x `mod` 10)) as ->
        by lia.
      change (10 ^ Z.of_nat 1) with 10. lia.
    + intros _. by destruct digits.
Qed.

Lemma pretty_N_digits (n : N) :
  pretty n ≠ EmptyString
  ∧ string_forall is_digit (pretty n) = true
  ∧ parseInt (pretty n) = Z.of_N n.
Proof.
  unfold pretty, pretty_N. destruct (decide (n = 0)%N) as [->|Hpos]; [done|].
  destruct (pretty_N_go_spec n EmptyString) as (digits & Heq & Hall & Hparse & Hne).
  assert (pretty_N_go n "" = digits) as ->.
  { rewrite Heq. clear. induction digits as [|c digits IH]; [reflexivity|].
    rewrite append_cons. by rewrite IH. }
  split; [apply Hne; lia|]. split; [done|].
  unfold parseInt. rewrite Hparse. lia.
Qed.

Lemma regex_match_no_digit (s : string) :
  string_forall (λ c, negb (is_digit c)) s = true → regex_match s = None.
Proof.
  induction s as [|c s IH]; [reflexivity|].
  cbn [string_forall]. intros Hs. apply andb_true_iff in Hs as [Hc Hs].
  apply negb_true_iff in Hc.
  cbn [regex_match]. unfold match_here. cbn [span_digits]. rewrite Hc.
  by apply IH.
Qed.

End ParseFileSize.

(** X21. [parseFileSize] reads back a size written as a decimal number,
    optional blanks and one of KB, MB, GB in any mix of cases, whatever text
    follows: the result is the number times 1024, 1024^2 or 1024^3 (as long
    as that product is exactly representable, i.e. at most 2^53). A text
    without any digit gives the default of 100MB. *)
Theorem parseFileSize_reads_sizes
    (n : N) (blanks unit tail : string) (factor : Z) (other : string) :
  string_forall ToolPanel.is_space blanks = true →
  (ToolPanel.toUpperCase unit, factor) ∈ ToolPanel.units →
  Z.of_N n * factor ≤ 2 ^ 53 →
  string_forall (λ c, negb (ToolPanel.is_digit c)) other = true →
  ToolPanel.parseFileSize (pretty n +:+ blanks +:+ unit +:+ tail)
  = Z.of_N n * factor
  ∧ ToolPanel.parseFileSize other = 100 * 1024 * 1024.
Proof.
  intros Hblanks Hunit _ Hother.
  destruct (pretty_N_digits n) as (Hne & Hdigits & Hvalue). split.
  - rewrite (parseFileSize_of_parts _ _ _ _ _ Hne Hdigits Hblanks Hunit).
    by rewrite Hvalue.
  - unfold ToolPanel.parseFileSize. by rewrite (regex_match_no_digit _ Hother).
Qed.

Lemma parseFileSize_reads_sizes_witness :
  ToolPanel.parseFileSize (pretty 50%N +:+ " " +:+ "mb" +:+ " max")
  = Z.of_N 50 * (1024 * 1024)
  ∧ ToolPanel.parseFileSize "unlimited" = 100 * 1024 * 1024.
Proof.
  apply (parseFileSize_reads_sizes 50 " " "mb" " max" (1024 * 1024) "unlimited").
  - reflexivity.
  - cbn. apply list_elem_of_further, list_elem_of_here.
  - vm_compute. discriminate.
  - reflexivity.
Defined.

(** ** The tool panel: the drop handler *)

Section DropFacts.
Import ToolPanel.

Variable formatBytes : Z → string.
Variable toLocaleTimeString : Z → string.

Lemma validateFile_valid_inv file types cap :
  isValid (validateFile formatBytes file types cap) = true →
  file_type file ∈ types ∧ file_size file ≤ cap
  ∧ (String.length (file_name file) ≤ 255)%nat
  ∧ ¬ has_dangerous_extension (file_name file).
Proof.
  rewrite <- dangerous_name_iff.
  rewrite isValid_validateFile, bool_decide_eq_true, validateFile_errors.
  destruct (bool_decide (file_type file ∈ types)) eqn:Htype; [|discriminate].
  apply bool_decide_eq_true in Htype.
  destruct (cap <? file_size file) eqn:Hsize; [discriminate|].
  apply Z.ltb_ge in Hsize.
  destruct (255 <? Z.of_nat (String.length (file_name file))) eqn:Hname;
    [discriminate|].
  apply Z.ltb_ge in Hname.
  destruct (dangerous_name (file_name file)); [discriminate|].
  intros _. repeat split; [done|done|lia|discriminate].
Qed.

Lemma sort_accepted_valid tool cap (acceptedFiles : list File) :
  (sort_accepted formatBytes tool cap acceptedFiles).1
  = filter (λ file, isValid (validateFile formatBytes file
                               (supportedFormats tool) cap) = true)
           acceptedFiles.
Proof.
  induction acceptedFiles as [|file later IH]; [reflexivity|].
  cbn [sort_accepted].
  destruct (sort_accepted formatBytes tool cap later) as [validFiles messages].
  cbn [fst] in IH.
  destruct (isValid (validateFile formatBytes file (supportedFormats tool) cap))
    eqn:Hvalid; cbn [fst].
  - rewrite filter_cons_True by done. by rewrite IH.
  - rewrite filter_cons_False; [done|]. by rewrite Hvalid.
Qed.

Lemma getMimeType_has_slash (format : string) :
  has_char "/" (getMimeType format) = true.
Proof.
  unfold getMimeType.
  destruct ((list_to_map mimeTypes : gmap string string) !! format)
    as [mime|] eqn:Hl; [|reflexivity].
  apply elem_of_list_to_map_2 in Hl. unfold mimeTypes in Hl.
  repeat (apply elem_of_cons in Hl as [[= -> ->]|Hl]; [reflexivity|]).
  by apply elem_of_nil in Hl.
Qed.

(** What [onDrop] does to the list of files: nothing, or it appends the
    valid ones among the accepted files. *)
Lemma onDrop_files now userId tool acceptedFiles rejectedFiles (st : Panel) :
  files (onDrop formatBytes toLocaleTimeString now userId tool
           acceptedFiles rejectedFiles st) = files st
  ∨ files (onDrop formatBytes toLocaleTimeString now userId tool
             acceptedFiles rejectedFiles st)
    = files st ++
      filter (λ file, isValid (validateFile formatBytes file
                                 (supportedFormats tool)
                                 (parseFileSize (maxFileSize tool))) = true)
             acceptedFiles.
Proof.
  unfold onDrop.
  destruct (RateLimiter.isAllowed now userId (requests st)) as [[|] requests'];
    cbn [negb]; [|by left].
  destruct (bool_decide (length rejectedFiles = 0%nat)); cbn [negb]; [|by left].
  rewrite <- sort_accepted_valid.
  destruct (sort_accepted _ _ _ _) as [validFiles messages]. cbn [fst].
  destruct (bool_decide (length messages = 0%nat)),
           (bool_decide (length validFiles = 0%nat));
    cbn [negb files]; (by left) || (by right).
Qed.

(** X22. A drop only ever appends to the list of files, and what it appends
    are accepted files, in their order, each with a declared type that is
    literally one of the tool's [supportedFormats], a size within
    [parseFileSize(tool.maxFileSize)], a name of at most 255 code units and
    no dangerous extension. Every drop is charged to the rate limiter. *)
Theorem onDrop_appends_only_valid_files
    now userId tool acceptedFiles rejectedFiles (st : Panel) :
  (∃ added,
     files (onDrop formatBytes toLocaleTimeString now userId tool
              acceptedFiles rejectedFiles st) = files st ++ added
     ∧ added `sublist_of` acceptedFiles
     ∧ Forall (λ file,
                 file_type file ∈ supportedFormats tool
                 ∧ file_size file ≤ parseFileSize (maxFileSize tool)
                 ∧ (String.length (file_name file) ≤ 255)%nat
                 ∧ ¬ has_dangerous_extension (file_name file)) added)
  ∧ requests (onDrop formatBytes toLocaleTimeString now userId tool
                acceptedFiles rejectedFiles st)
    = (RateLimiter.isAllowed now userId (requests st)).2.
Proof.
  split.
  - destruct (onDrop_files now userId tool acceptedFiles rejectedFiles st)
      as [->| ->].
    + exists []. rewrite app_nil_r. split; [done|]. split; [|done].
      apply sublist_nil_l.
    + eexists. split; [reflexivity|]. split; [apply sublist_filter|].
      apply Forall_forall. intros file Hin.
      apply list_elem_of_filter in Hin as [Hvalid _].
      by apply validateFile_valid_inv.
  - unfold onDrop.
    destruct (RateLimiter.isAllowed now userId (requests st)) as [[|] requests'];
      cbn [negb snd]; [|reflexivity].
    destruct (bool_decide (length rejectedFiles = 0%nat)); cbn [negb];
      [|reflexivity].
    destruct (sort_accepted _ _ _ _) as [validFiles messages].
    by destruct (bool_decide (length messages = 0%nat)),
                (bool_decide (length validFiles = 0%nat)).
Qed.

(** X23. The dropzone admits files by the MIME types that [getMimeType]
    gives for the tool's formats, but the handler compares the declared type
    with the format strings themselves: when no format contains a slash (as
    for extensions like [.pdf]), a drop of files whose declared types are
    values of [getMimeType] adds no file at all. *)
Theorem onDrop_never_adds_mime_typed_files
    now userId tool acceptedFiles rejectedFiles (st : Panel) :
  Forall (λ format, has_char "/" format = false) (supportedFormats tool) →
  Forall (λ file, ∃ format, file_type file = getMimeType format) acceptedFiles →
  files (onDrop formatBytes toLocaleTimeString now userId tool
           acceptedFiles rejectedFiles st) = files st.
Proof.
  intros Hformats Htypes.
  destruct (onDrop_files now userId tool acceptedFiles rejectedFiles st)
    as [->| ->]; [reflexivity|].
  rewrite <- (app_nil_r (files st)) at 2. f_equal.
  induction Htypes as [|file later [format Hfile] _ IH]; [reflexivity|].
  rewrite filter_cons_False; [exact IH|].
  intros Hvalid. apply validateFile_valid_inv in Hvalid as [Hin _].
  rewrite Forall_forall in Hformats. specialize (Hformats _ Hin).
  rewrite Hfile, getMimeType_has_slash in Hformats. discriminate Hformats.
Qed.

(** X24. A drop refused by the rate limiter changes nothing but the toasts:
    the files, the validation errors and the limiter's histories stay as
    they were, and one error toast with the reset time is shown. *)
Theorem onDrop_refused_changes_nothing
    now userId tool acceptedFiles rejectedFiles (st : Panel) :
  (RateLimiter.isAllowed now userId (requests st)).1 = false →
  onDrop formatBytes toLocaleTimeString now userId tool
    acceptedFiles rejectedFiles st
  = {| requests := requests st; files := files st;
       validationErrors := validationErrors st;
       toasts := toasts st ++
         [toast_error ("Rate limit exceeded. Try again at " +:+
            toLocaleTimeString (RateLimiter.getResetTime userId (requests st)))] |}.
Proof.
  unfold onDrop, RateLimiter.isAllowed.
  case_bool_decide; cbn [fst negb]; [reflexivity|discriminate].
Qed.

(** X25. When an admitted drop contains at least one valid file and no
    rejected file, the valid file is added and the validation errors end up
    empty, even if other files of the same drop failed validation: their
    messages are overwritten. *)
Theorem onDrop_valid_file_clears_errors
    now userId tool acceptedFiles (st : Panel) file :
  (RateLimiter.isAllowed now userId (requests st)).1 = true →
  file ∈ acceptedFiles →
  isValid (validateFile formatBytes file (supportedFormats tool)
             (parseFileSize (maxFileSize tool))) = true →
  validationErrors (onDrop formatBytes toLocaleTimeString now userId tool
                      acceptedFiles [] st) = []
  ∧ file ∈ files (onDrop formatBytes toLocaleTimeString now userId tool
                    acceptedFiles [] st).
Proof.
  intros Hallowed Hin Hvalid. unfold onDrop.
  destruct (RateLimiter.isAllowed now userId (requests st)) as [allowed requests'].
  cbn [fst] in Hallowed. subst allowed. cbn [negb length bool_decide].
  rewrite bool_decide_eq_true_2 by done. cbn [negb].
  pose proof (sort_accepted_valid tool (parseFileSize (maxFileSize tool))
                acceptedFiles) as Hsort.
  destruct (sort_accepted _ _ _ _) as [validFiles messages]. cbn [fst] in Hsort.
  assert (file ∈ validFiles) as Hfile.
  { rewrite Hsort. by apply list_elem_of_filter. }
  rewrite (bool_decide_eq_false_2 (length validFiles = 0%nat)).
  - cbn [negb validationErrors files]. split; [reflexivity|].
    apply elem_of_app. right. exact Hfile.
  - destruct validFiles; [by apply elem_of_nil in Hfile|discriminate].
Qed.

(** X26. When the dropzone reports any rejected file, an admitted drop adds
    none of the accepted files either, and the validation errors become one
    message per rejected file. *)
Theorem onDrop_with_rejections_adds_nothing
    now userId tool acceptedFiles rejectedFiles (st : Panel) :
  (RateLimiter.isAllowed now userId (requests st)).1 = true →
  rejectedFiles ≠ [] →
  files (onDrop formatBytes toLocaleTimeString now userId tool
           acceptedFiles rejectedFiles st) = files st
  ∧ validationErrors (onDrop formatBytes toLocaleTimeString now userId tool
                        acceptedFiles rejectedFiles st)
    = map (λ rejection,
             rejected_name rejection +:+ ": " +:+
             JS.join ", " (rejection_messages rejection)) rejectedFiles.
Proof.
  intros Hallowed Hrejected. unfold onDrop.
  destruct (RateLimiter.isAllowed now userId (requests st)) as [allowed requests'].
  cbn [fst] in Hallowed. subst allowed. cbn [negb].
  rewrite bool_decide_eq_false_2; [done|].
  by destruct rejectedFiles.
Qed.

End DropFacts.

Lemma onDrop_never_adds_mime_typed_files_witness :
  ToolPanel.files
    (SampleMore.onDrop 2000 "anonymous" SampleMore.pdf_tool
       [Sample.report_pdf] [] SampleMore.empty_panel) = [].
Proof.
  apply (onDrop_never_adds_mime_typed_files Sample.formatBytes SampleMore.time_text
           2000 "anonymous" SampleMore.pdf_tool [Sample.report_pdf] []
           SampleMore.empty_panel).
  - apply Forall_singleton. reflexivity.
  - apply Forall_singleton. by exists ".pdf".
Defined.

Lemma onDrop_refused_changes_nothing_witness :
  SampleMore.onDrop 2000 "anonymous" SampleMore.pdf_tool
    [SampleMore.dot_pdf_file] [] SampleMore.busy_panel
  = {| ToolPanel.requests := ToolPanel.requests SampleMore.busy_panel;
       ToolPanel.files := [];
       ToolPanel.validationErrors := [];
       ToolPanel.toasts :=
         [ToolPanel.toast_error "Rate limit exceeded. Try again at 12:00:00"] |}.
Proof.
  apply (onDrop_refused_changes_nothing Sample.formatBytes SampleMore.time_text
           2000 "anonymous" SampleMore.pdf_tool [SampleMore.dot_pdf_file] []
           SampleMore.busy_panel).
  vm_compute. reflexivity.
Defined.

Lemma onDrop_valid_file_clears_errors_witness :
  ToolPanel.validationErrors
    (SampleMore.onDrop 2000 "anonymous" SampleMore.pdf_tool
       [Sample.report_pdf; SampleMore.dot_pdf_file] [] SampleMore.empty_panel) = []
  ∧ SampleMore.dot_pdf_file
      ∈ ToolPanel.files
          (SampleMore.onDrop 2000 "anonymous" SampleMore.pdf_tool
             [Sample.report_pdf; SampleMore.dot_pdf_file] [] SampleMore.empty_panel).
Proof.
  apply (onDrop_valid_file_clears_errors Sample.formatBytes SampleMore.time_text
           2000 "anonymous" SampleMore.pdf_tool
           [Sample.report_pdf; SampleMore.dot_pdf_file] SampleMore.empty_panel
           SampleMore.dot_pdf_file).
  - vm_compute. reflexivity.
  - apply list_elem_of_further, list_elem_of_here.
  - vm_compute. reflexivity.
Defined.

Lemma onDrop_with_rejections_adds_nothing_witness :
  ToolPanel.files
    (SampleMore.onDrop 2000 "anonymous" SampleMore.pdf_tool
       [SampleMore.dot_pdf_file]
       [{| ToolPanel.rejected_name := "big.pdf";
           ToolPanel.rejection_messages := ["File is larger than 104857600 bytes"] |}]
       SampleMore.empty_panel) = []
  ∧ ToolPanel.validationErrors
      (SampleMore.onDrop 2000 "anonymous" SampleMore.pdf_tool
         [SampleMore.dot_pdf_file]
         [{| ToolPanel.rejected_name := "big.pdf";
             ToolPanel.rejection_messages := ["File is larger than 104857600 bytes"] |}]
         SampleMore.empty_panel)
    = ["big.pdf: File is larger than 104857600 bytes"].
Proof.
  apply (onDrop_with_rejections_adds_nothing Sample.formatBytes SampleMore.time_text
           2000 "anonymous" SampleMore.pdf_tool [SampleMore.dot_pdf_file]
           [{| ToolPanel.rejected_name := "big.pdf";
               ToolPanel.rejection_messages :=
                 ["File is larger than 104857600 bytes"] |}]
           SampleMore.empty_panel).
  - vm_compute. reflexivity.
  - discriminate.
Defined.

(** ** The processing store *)

Section ProcessingStoreFacts.
Import ProcessingStore.

Context {Result : Type}.
Variable truthy : Result → bool.

Lemma updateProgress_ids (jobs : list (ProcessingJob Result)) :
  ∀ clock jobId p st res err,
    map id (updateProgress truthy clock jobId p st res err jobs) = map id jobs.
Proof.
  unfold updateProgress.
  induction jobs as [|job jobs IH]; intros clock jobId p st res err;
    [reflexivity|].
  rewrite imap_cons. cbn [map]. f_equal.
  - by destruct (String.eqb (id job) jobId).
  - apply (IH (clock ∘ S)).
Qed.

Lemma updateProgress_absent (jobs : list (ProcessingJob Result)) :
  ∀ clock jobId p st res err,
    jobId ∉ map id jobs →
    updateProgress truthy clock jobId p st res err jobs = jobs.
Proof.
  unfold updateProgress.
  induction jobs as [|job jobs IH]; intros clock jobId p st res err Hnot;
    [reflexivity|].
  cbn [map] in Hnot. apply not_elem_of_cons in Hnot as [Hne Hnot].
  rewrite imap_cons. f_equal.
  - destruct (String.eqb_spec (id job) jobId); [congruence|done].
  - by apply (IH (clock ∘ S)).
Qed.

(** Whatever is passed, a job keeps what identifies it. *)
Lemma updateProgress_identity (jobs : list (ProcessingJob Result)) :
  ∀ clock jobId p st res err,
    Forall2 (λ job job',
               toolId job' = toolId job ∧ toolName job' = toolName job
               ∧ files job' = files job ∧ startTime job' = startTime job
               ∧ (id job = jobId → progress job' = p)
               ∧ (id job ≠ jobId → job' = job))
            jobs (updateProgress truthy clock jobId p st res err jobs).
Proof.
  unfold updateProgress.
  induction jobs as [|job jobs IH]; intros clock jobId p st res err;
    [constructor|].
  rewrite imap_cons. constructor; [|apply (IH (clock ∘ S))].
  destruct (String.eqb_spec (id job) jobId) as [Heq|Hne].
  - by repeat split.
  - by repeat split.
Qed.

(** With nothing but a progress passed, the rebuilt job is the old one with
    the new progress. *)
Lemma updated_tick (job : ProcessingJob Result) now p :
  updated truthy job now p None None None = with_progress p job.
Proof. reflexivity. Qed.

Lemma updateProgress_tick (jobs : list (ProcessingJob Result)) :
  ∀ clock jobId p,
    updateProgress truthy clock jobId p None None None jobs
    = map (λ job, if String.eqb (id job) jobId then with_progress p job else job)
          jobs.
Proof.
  unfold updateProgress.
  induction jobs as [|job jobs IH]; intros clock jobId p; [reflexivity|].
  rewrite imap_cons. cbn [map]. rewrite <- (IH (clock ∘ S)).
  destruct (String.eqb (id job) jobId); [|reflexivity].
  by rewrite updated_tick.
Qed.

(** A falsy result is not stored: passing it is as passing none. *)
Lemma updateProgress_falsy_result (jobs : list (ProcessingJob Result)) :
  ∀ clock jobId p st r err,
    truthy r = false →
    updateProgress truthy clock jobId p st (Some r) err jobs
    = updateProgress truthy clock jobId p st None err jobs.
Proof.
  intros clock jobId p st r err Hfalsy. unfold updateProgress.
  apply imap_ext. intros i job _.
  destruct (String.eqb (id job) jobId); [|reflexivity].
  unfold updated, result_or. by rewrite Hfalsy.
Qed.

End ProcessingStoreFacts.

(** X27. [updateProgress] of the processing store never adds, drops or
    reorders jobs (the ids stay as they were); for an id that no job carries
    it changes nothing; whatever is passed, a job keeps its tool id, tool
    name, files and start time, a matching job takes the new progress and a
    job with another id is left as it is; a plain progress tick (no status,
    result or error given) turns each matching job into the same job with
    the new progress, every other field being as it was; and a falsy result
    (such as 0) is not stored. *)
Theorem store_updateProgress_keeps_jobs {Result : Type} (truthy : Result → bool)
    (jobs : list (ProcessingStore.ProcessingJob Result))
    (clock : nat → Z) (jobId : string) (p : JS.number)
    (st : option ProcessingStore.Status) (res : option Result)
    (err : option string) :
  map ProcessingStore.id
    (ProcessingStore.updateProgress truthy clock jobId p st res err jobs)
  = map ProcessingStore.id jobs
  ∧ (jobId ∉ map ProcessingStore.id jobs →
     ProcessingStore.updateProgress truthy clock jobId p st res err jobs = jobs)
  ∧ Forall2 (λ job job',
               ProcessingStore.toolId job' = ProcessingStore.toolId job
               ∧ ProcessingStore.toolName job' = ProcessingStore.toolName job
               ∧ ProcessingStore.files job' = ProcessingStore.files job
               ∧ ProcessingStore.startTime job' = ProcessingStore.startTime job
               ∧ (ProcessingStore.id job = jobId → ProcessingStore.progress job' = p)
               ∧ (ProcessingStore.id job ≠ jobId → job' = job))
            jobs
            (ProcessingStore.updateProgress truthy clock jobId p st res err jobs)
  ∧ ProcessingStore.updateProgress truthy clock jobId p None None None jobs
    = map (λ job, if String.eqb (ProcessingStore.id job) jobId
                  then ProcessingStore.with_progress p job else job) jobs
  ∧ (∀ r, truthy r = false →
          ProcessingStore.updateProgress truthy clock jobId p st (Some r) err jobs
          = ProcessingStore.updateProgress truthy clock jobId p st None err jobs).
Proof.
  split; [apply updateProgress_ids|].
  split; [apply updateProgress_absent|].
  split; [apply updateProgress_identity|].
  split; [apply updateProgress_tick|].
  intros r. apply updateProgress_falsy_result.
Qed.

Lemma store_updateProgress_keeps_jobs_witness :
  ProcessingStore.updateProgress SampleMore.number_truthy (λ _, 2000) "job-z"
    (JS.finite 50) (Some ProcessingStore.failed) None (Some "boom")
    [SampleMore.running_job; SampleMore.finished_job]
  = [SampleMore.running_job; SampleMore.finished_job]
  ∧ ProcessingStore.updateProgress SampleMore.number_truthy (λ _, 2000) "job-a"
      (JS.finite 50) None None None
      [SampleMore.running_job; SampleMore.finished_job]
    = [ {| ProcessingStore.id := "job-a"; ProcessingStore.toolId := "merge-pdf";
           ProcessingStore.toolName := "Merge PDF";
           ProcessingStore.files := [("report.pdf", 6)];
           ProcessingStore.status := ProcessingStore.processing;
           ProcessingStore.progress := JS.finite 50;
           ProcessingStore.startTime := 1000;
           ProcessingStore.endTime := None; ProcessingStore.result := None;
           ProcessingStore.error := None |};
        SampleMore.finished_job ]
  ∧ ProcessingStore.updateProgress SampleMore.number_truthy (λ _, 2000) "job-b"
      (JS.finite 100) None (Some 0%nat) None
      [SampleMore.running_job; SampleMore.finished_job]
    = [SampleMore.running_job; SampleMore.finished_job].
Proof.
  destruct (store_updateProgress_keeps_jobs SampleMore.number_truthy
              [SampleMore.running_job; SampleMore.finished_job]
              (λ _, 2000) "job-z" (JS.finite 50)
              (Some ProcessingStore.failed) None (Some "boom"))
    as (_ & Habsent & _).
  destruct (store_updateProgress_keeps_jobs SampleMore.number_truthy
              [SampleMore.running_job; SampleMore.finished_job]
              (λ _, 2000) "job-a" (JS.finite 50) None None None)
    as (_ & _ & _ & Htick & _).
  destruct (store_updateProgress_keeps_jobs SampleMore.number_truthy
              [SampleMore.running_job; SampleMore.finished_job]
              (λ _, 2000) "job-b" (JS.finite 100) None None None)
    as (_ & _ & _ & Htick' & Hfalsy).
  split; [|split].
  - apply Habsent. cbn. rewrite !not_elem_of_cons. repeat split; try discriminate.
    apply not_elem_of_nil.
  - rewrite Htick. reflexivity.
  - rewrite (Hfalsy 0%nat) by reflexivity. rewrite Htick'. reflexivity.
Defined.

(** X28. Every job is either active (processing or pending) or completed
    (completed or failed), never both: the two views together are a
    rearrangement of the job list. [clearCompleted] keeps exactly the active
    jobs, and doing it twice changes nothing more. *)
Theorem store_active_and_completed_partition {Result : Type}
    (jobs : list (ProcessingStore.ProcessingJob Result)) :
  ProcessingStore.getActiveJobs jobs ++ ProcessingStore.getCompletedJobs jobs ≡ₚ jobs
  ∧ ProcessingStore.clearCompleted jobs = ProcessingStore.getActiveJobs jobs
  ∧ ProcessingStore.getCompletedJobs (ProcessingStore.clearCompleted jobs) = []
  ∧ ProcessingStore.clearCompleted (ProcessingStore.clearCompleted jobs)
    = ProcessingStore.clearCompleted jobs.
Proof.
  assert (∀ job : ProcessingStore.ProcessingJob Result,
            ProcessingStore.is_done job ↔ ¬ ProcessingStore.is_active job) as Hcompl.
  { intros job. unfold ProcessingStore.is_done, ProcessingStore.is_active.
    destruct (ProcessingStore.status job); split; intros H;
      try (intros [?|?]; destruct H; discriminate);
      try (destruct H; discriminate);
      try (exfalso; apply H; auto; fail); auto. }
  unfold ProcessingStore.getActiveJobs, ProcessingStore.getCompletedJobs,
    ProcessingStore.clearCompleted.
  split; [|split; [reflexivity|split]].
  - rewrite (list_filter_iff ProcessingStore.is_done
               (λ job, ¬ ProcessingStore.is_active job)) by apply Hcompl.
    apply filter_app_complement.
  - induction jobs as [|job jobs IH]; [reflexivity|].
    destruct (decide (ProcessingStore.is_active job)) as [Hactive|Hdone].
    + rewrite (filter_cons_True ProcessingStore.is_active) by done.
      rewrite filter_cons_False; [exact IH|].
      intros Hdone. by apply Hcompl in Hdone.
    + by rewrite (filter_cons_False ProcessingStore.is_active).
  - induction jobs as [|job jobs IH]; [reflexivity|].
    destruct (decide (ProcessingStore.is_active job)) as [Hactive|Hdone].
    + rewrite (filter_cons_True ProcessingStore.is_active _ jobs) by done.
      rewrite filter_cons_True by done. by rewrite IH.
    + by rewrite (filter_cons_False ProcessingStore.is_active).
Qed.

(** X29. [removeJob] leaves no job with the given id and keeps every other
    job; removing the job that was just added under a fresh id gives back the
    list as it was. *)
Theorem store_removeJob_removes {Result : Type}
    (jobs : list (ProcessingStore.ProcessingJob Result))
    (job : ProcessingStore.ProcessingJob Result) (jobId : string) :
  (jobId ∉ map ProcessingStore.id (ProcessingStore.removeJob jobId jobs))
  ∧ (∀ other, other ∈ jobs → ProcessingStore.id other ≠ jobId →
              other ∈ ProcessingStore.removeJob jobId jobs)
  ∧ (ProcessingStore.id job ∉ map ProcessingStore.id jobs →
     ProcessingStore.removeJob (ProcessingStore.id job)
       (ProcessingStore.addJob job jobs) = jobs).
Proof.
  unfold ProcessingStore.removeJob, ProcessingStore.addJob.
  split; [|split].
  - intros Hin. apply list_elem_of_fmap in Hin as (other & Hid & Hother).
    apply list_elem_of_filter in Hother as [Hne _]. by apply Hne.
  - intros other Hin Hne. by apply list_elem_of_filter.
  - intros Hfresh. rewrite filter_cons_False by (intros H; by apply H).
    induction jobs as [|other jobs IH]; [reflexivity|].
    cbn [map] in Hfresh. apply not_elem_of_cons in Hfresh as [Hne Hfresh].
    rewrite filter_cons_True by (intros H; by apply Hne).
    by rewrite (IH Hfresh).
Qed.

Lemma store_removeJob_removes_witness :
  ProcessingStore.removeJob "job-a"
    (ProcessingStore.addJob SampleMore.running_job [SampleMore.finished_job])
  = [SampleMore.finished_job].
Proof.
  apply (store_removeJob_removes [SampleMore.finished_job]
           SampleMore.running_job "job-a").
  cbn. rewrite not_elem_of_cons. split; [discriminate|apply not_elem_of_nil].
Defined.

(** ** The tool usage store *)

Lemma read_insert_eq {A} (object : gmap string A) (key : string) (a : A) :
  JS.read (<[key := a]> object) key = JS.own a.
Proof. unfold JS.read. by rewrite lookup_insert_eq. Qed.

Lemma read_insert_ne {A} (object : gmap string A) (key other : string) (a : A) :
  other ≠ key → JS.read (<[key := a]> object) other = JS.read object other.
Proof. intros Hne. unfold JS.read. by rewrite lookup_insert_ne. Qed.

(** X30. A tool is available exactly while uses remain, unless its id names
    a member that the statistics object inherits from [Object.prototype] and
    has no recorded use: such a tool is reported unavailable although all 50
    uses remain. Each [incrementUsage] raises the count of its tool by one
    (it is never refused, also past the limit) and leaves the other tools
    alone, so a tool stays available after an increment exactly when its
    count was below 49; [resetUsage] makes the tool available again with all
    50 uses. *)
Theorem toolStore_availability
    (now : Z) (toolId other : string) (usageStats : gmap string ToolStore.Usage) :
  (ToolStore.isToolAvailable toolId usageStats = true
   ↔ 0 < ToolStore.getRemainingUses toolId usageStats
     ∧ JS.read usageStats toolId ≠ JS.inherited)
  ∧ (usageStats !! toolId = None → toolId ∈ JS.objectPrototypeKeys →
     ToolStore.isToolAvailable toolId usageStats = false
     ∧ ToolStore.getRemainingUses toolId usageStats = 50)
  ∧ ToolStore.used (ToolStore.incrementUsage now toolId usageStats) toolId
    = ToolStore.used usageStats toolId + 1
  ∧ (other ≠ toolId →
     ToolStore.incrementUsage now toolId usageStats !! other = usageStats !! other
     ∧ ToolStore.isToolAvailable other (ToolStore.incrementUsage now toolId usageStats)
       = ToolStore.isToolAvailable other usageStats)
  ∧ (ToolStore.isToolAvailable toolId
       (ToolStore.incrementUsage now toolId usageStats) = true
     ↔ ToolStore.used usageStats toolId < 49)
  ∧ ToolStore.isToolAvailable toolId (ToolStore.resetUsage now toolId usageStats)
    = true
  ∧ ToolStore.getRemainingUses toolId (ToolStore.resetUsage now toolId usageStats)
    = 50.
Proof.
  unfold ToolStore.isToolAvailable, ToolStore.getRemainingUses,
    ToolStore.incrementUsage, ToolStore.resetUsage, ToolStore.used,
    ToolStore.MAX_USES_PER_TOOL.
  rewrite !read_insert_eq. cbn [ToolStore.count].
  split; [|split; [|split; [reflexivity|split; [|split; [|split; reflexivity]]]]].
  - destruct (JS.read usageStats toolId) as [stats| |].
    + rewrite Z.ltb_lt. split; [intros H; split; [lia|discriminate]|lia].
    + split; [discriminate|]. by intros [_ H].
    + split; [intros _; split; [lia|discriminate]|done].
  - intros Hnone Hinherited. unfold JS.read.
    rewrite Hnone, (bool_decide_eq_true_2 _ Hinherited). by split.
  - intros Hne. split; [by rewrite lookup_insert_ne|].
    by rewrite read_insert_ne.
  - rewrite Z.ltb_lt. lia.
Qed.

Lemma toolStore_availability_witness :
  ToolStore.incrementUsage 2000 "merge-pdf"
    {[ "ocr" := {| ToolStore.count := 50; ToolStore.lastUsed := 1000 |} ]} !! "ocr"
  = Some {| ToolStore.count := 50; ToolStore.lastUsed := 1000 |}
  ∧ ToolStore.isToolAvailable "constructor"
      {[ "ocr" := {| ToolStore.count := 50; ToolStore.lastUsed := 1000 |} ]}
    = false
  ∧ ToolStore.getRemainingUses "constructor"
      {[ "ocr" := {| ToolStore.count := 50; ToolStore.lastUsed := 1000 |} ]}
    = 50.
Proof.
  destruct (toolStore_availability 2000 "merge-pdf" "ocr"
              {[ "ocr" := {| ToolStore.count := 50; ToolStore.lastUsed := 1000 |} ]})
    as (_ & _ & _ & Hother & _).
  destruct (toolStore_availability 2000 "constructor" "ocr"
              {[ "ocr" := {| ToolStore.count := 50; ToolStore.lastUsed := 1000 |} ]})
    as (_ & Hinherited & _).
  destruct Hother as [Hlookup _]; [discriminate|].
  destruct Hinherited as [Hunavailable Hremaining].
  { by apply lookup_singleton_ne. }
  { apply list_elem_of_here. }
  split; [by rewrite Hlookup|]. by split.
Defined.

Lemma checkMagicNumbers_iff_signature_prefix_witness :
  SecurityValidator.checkMagicNumbers [0x25; 0x50; 0x44; 0x46; 0x2D] "application/pdf"
  = true.
Proof.
  apply (checkMagicNumbers_iff_signature_prefix
           [0x25; 0x50; 0x44; 0x46; 0x2D] "application/pdf").
  - unfold JS.objectPrototypeKeys. rewrite !not_elem_of_cons.
    repeat split; try discriminate. apply not_elem_of_nil.
  - intros signature [= <-]. by exists [0x2D].
Defined.

Lemma validateFileContent_iff_witness :
  SecurityValidator.validateFileContent Sample.report_pdf = true.
Proof.
  apply (validateFileContent_iff Sample.report_pdf).
  - unfold JS.objectPrototypeKeys. rewrite !not_elem_of_cons.
    repeat split; try discriminate. apply not_elem_of_nil.
  - exists [0x25; 0x50; 0x44; 0x46; 0x2D; 0x31]. split; [reflexivity|].
    intros signature [= <-]. by exists [0x2D; 0x31].
Defined.

Lemma validateFile_valid_iff_witness :
  isValid (validateFile Sample.formatBytes Sample.report_pdf
             ["application/pdf"] (100 * 1024 * 1024)) = true.
Proof.
  apply (validateFile_valid_iff Sample.formatBytes Sample.report_pdf
           ["application/pdf"] (100 * 1024 * 1024)).
  split; [apply list_elem_of_here|].
  split; [vm_compute; discriminate|].
  split; [vm_compute; lia|].
  intros Hd. apply dangerous_name_iff in Hd. vm_compute in Hd. discriminate Hd.
Defined.

Lemma handleProcessingError_shape_witness :
  recoverable
    (ErrorHandler.handleProcessingError "0.k3v9x01ab2c"
       (PlainError {| err_name := "SecurityError"; err_message := "access denied" |})
       "tool_compress-pdf") = false.
Proof.
  apply (handleProcessingError_shape "0.k3v9x01ab2c"
           (PlainError {| err_name := "SecurityError";
                          err_message := "access denied" |})
           "tool_compress-pdf").
  apply list_elem_of_further, list_elem_of_here.
Defined.
